(** * Tax estimator: the calculation engine of [utils/calculator.js]
    and the schedule tables of [data/taxConfig.js].

    The engine is given twice.

    The first development computes with exact rationals ([Q]); equality of
    amounts is [Qeq] (written [==]).  Figures that went through
    [roundToDollar] are integers injected in [Q], hence canonical, and are
    compared with Leibniz equality.  Objects used as maps (the schedule
    tables) are [gmap]s carrying their own keys only.  A function that can
    throw returns a [Result].  It carries the statements on the arithmetic
    of the schedules: the figures of the scenarios, the bounds and the
    monotonicity of the liability, the relations between the fields of a
    result.

    The module [Js] gives the engine again on binary64 doubles, with
    property reads that fall back on [Object.prototype] and with the sort
    of the language.  It carries the statements that depend on the rounding
    of the machine operations, on inherited properties or on the order
    chosen by [Array.prototype.sort]. *)

From Stdlib Require Import QArith Qpower Qround Qabs Qminmax Lqa ZArith Lia.
From Stdlib Require Import Floats.
From stdpp Require Import gmap strings list fin_maps pretty.

Set Warnings "-inexact-float".

Local Open Scope Q_scope.

(** ** Numbers *)

(** [Math.round]: the nearest integer, a tie going to the upper one. *)
Definition Math_round (x : Q) : Z := Qfloor (x + (1 # 2)).

(** [roundToDollar(amount)], calculator.js line 301. *)
Definition roundToDollar (amount : Q) : Q := inject_Z (Math_round amount).

(** [amount <= 0], [a >= b] as JavaScript tests. *)
Definition leb (a b : Q) : bool := Qle_bool a b.
Definition ltb (a b : Q) : bool := negb (Qle_bool b a).

(** [x || d] on an optional number: [undefined] and [0] are both falsy. *)
Definition orElse (x : option Q) (d : Q) : Q :=
  match x with
  | Some v => if Qeq_bool v 0 then d else v
  | None => d
  end.

(** ** Errors *)

Inductive Error : Type :=
  | UnsupportedTaxYear (taxYear : Z)
  | UnsupportedFilingStatus (filingStatus : string) (taxYear : Z).

Inductive Result (A : Type) : Type :=
  | Return (a : A)
  | Throw (e : Error).
Arguments Return {A} a.
Arguments Throw {A} e.

#[export] Instance Result_ret : MRet Result := fun A a => Return a.
#[export] Instance Result_fmap : FMap Result := fun A B f r =>
  match r with
  | Return a => Return (f a)
  | Throw e => Throw e
  end.
#[export] Instance Result_bind : MBind Result := fun A B k r =>
  match r with
  | Return a => k a
  | Throw e => Throw e
  end.

(** ** Schedule tables, taxConfig.js *)

Module FILING_STATUSES.
Definition SINGLE : string := "single".
Definition MARRIED_FILING_JOINTLY : string := "married_filing_jointly".
End FILING_STATUSES.

(** A bracket [{rate, min, max}]; [max = None] is the source's [null]. *)
Record Bracket : Type := mkBracket {
  rate : Q;
  min : Q;
  max : option Q
}.

Abbreviation DeductionTable := (gmap Z (gmap string Q)).
Abbreviation BracketTable := (gmap Z (gmap string (list Bracket))).

Definition STANDARD_DEDUCTIONS : DeductionTable :=
  {[ 2025%Z := {[ FILING_STATUSES.SINGLE := 15000;
                  FILING_STATUSES.MARRIED_FILING_JOINTLY := 30000 ]};
     2026%Z := {[ FILING_STATUSES.SINGLE := 15400;
                  FILING_STATUSES.MARRIED_FILING_JOINTLY := 30800 ]} ]}.

Definition TAX_BRACKETS : BracketTable :=
  {[ 2025%Z :=
       {[ FILING_STATUSES.SINGLE :=
            [ {| rate := 0.10; min := 0; max := Some 11600 |};
              {| rate := 0.12; min := 11600; max := Some 47150 |};
              {| rate := 0.22; min := 47150; max := Some 100525 |};
              {| rate := 0.24; min := 100525; max := Some 191950 |};
              {| rate := 0.32; min := 191950; max := Some 243725 |};
              {| rate := 0.35; min := 243725; max := Some 609350 |};
              {| rate := 0.37; min := 609350; max := None |} ];
          FILING_STATUSES.MARRIED_FILING_JOINTLY :=
            [ {| rate := 0.10; min := 0; max := Some 23200 |};
              {| rate := 0.12; min := 23200; max := Some 94300 |};
              {| rate := 0.22; min := 94300; max := Some 201050 |};
              {| rate := 0.24; min := 201050; max := Some 383900 |};
              {| rate := 0.32; min := 383900; max := Some 487450 |};
              {| rate := 0.35; min := 487450; max := Some 731200 |};
              {| rate := 0.37; min := 731200; max := None |} ] ]};
     2026%Z :=
       {[ FILING_STATUSES.SINGLE :=
            [ {| rate := 0.10; min := 0; max := Some 11900 |};
              {| rate := 0.12; min := 11900; max := Some 48350 |};
              {| rate := 0.22; min := 48350; max := Some 103050 |};
              {| rate := 0.24; min := 103050; max := Some 196750 |};
              {| rate := 0.32; min := 196750; max := Some 249825 |};
              {| rate := 0.35; min := 249825; max := Some 624600 |};
              {| rate := 0.37; min := 624600; max := None |} ];
          FILING_STATUSES.MARRIED_FILING_JOINTLY :=
            [ {| rate := 0.10; min := 0; max := Some 23800 |};
              {| rate := 0.12; min := 23800; max := Some 96700 |};
              {| rate := 0.22; min := 96700; max := Some 206100 |};
              {| rate := 0.24; min := 206100; max := Some 393500 |};
              {| rate := 0.32; min := 393500; max := Some 499650 |};
              {| rate := 0.35; min := 499650; max := Some 749500 |};
              {| rate := 0.37; min := 749500; max := None |} ] ]} ]}.

(** [getStandardDeduction], taxConfig.js line 176.  The table is an explicit
    argument; [!table[y][s]] also rejects an amount of [0]. *)
Definition getStandardDeduction (table : DeductionTable)
    (taxYear : Z) (filingStatus : string) : Result Q :=
  match table !! taxYear with
  | None => Throw (UnsupportedTaxYear taxYear)
  | Some byStatus =>
      match byStatus !! filingStatus with
      | None => Throw (UnsupportedFilingStatus filingStatus taxYear)
      | Some amount =>
          if Qeq_bool amount 0
          then Throw (UnsupportedFilingStatus filingStatus taxYear)
          else Return amount
      end
  end.

(** [getTaxBrackets], taxConfig.js line 195.  An array is truthy even when
    empty, so only a missing key throws. *)
Definition getTaxBrackets (table : BracketTable)
    (taxYear : Z) (filingStatus : string) : Result (list Bracket) :=
  match table !! taxYear with
  | None => Throw (UnsupportedTaxYear taxYear)
  | Some byStatus =>
      match byStatus !! filingStatus with
      | None => Throw (UnsupportedFilingStatus filingStatus taxYear)
      | Some brackets => Return brackets
      end
  end.

(** ** Progressive tax, calculator.js lines 34-99 *)

Record TaxBracketResult : Type := mkTaxBracketResult {
  br_rate : Q;
  br_min : Q;
  br_max : option Q;
  incomeInBracket : Q;
  taxFromBracket : Q
}.

Record Liability : Type := mkLiability {
  liability : Q;
  bracketBreakdown : list TaxBracketResult
}.

(** The [for] loop over the brackets, from index [i] on: [brackets] is what
    is left of the array, the other arguments are the loop's variables.
    Returns [totalTax] and [bracketBreakdown] as they are after the loop. *)
Fixpoint applyBrackets (taxableIncome : Q) (brackets : list Bracket)
    (totalTax remainingIncome : Q) (bracketBreakdown : list TaxBracketResult)
    : Q * list TaxBracketResult :=
  match brackets with
  | [] => (totalTax, bracketBreakdown)
  | bracket :: rest =>
      if leb remainingIncome 0 then (totalTax, bracketBreakdown) (* break *)
      else
        let tax incomeInBracket :=
          let taxFromBracket := incomeInBracket * rate bracket in
          applyBrackets taxableIncome rest
            (totalTax + taxFromBracket)
            (remainingIncome - incomeInBracket)
            (bracketBreakdown ++
               [ {| br_rate := rate bracket;
                    br_min := min bracket;
                    br_max := max bracket;
                    incomeInBracket := roundToDollar incomeInBracket;
                    taxFromBracket := roundToDollar taxFromBracket |} ]) in
        match max bracket with
        | None => tax remainingIncome
        | Some max =>
            let bracketWidth := max - min bracket in
            if leb taxableIncome (min bracket) then (* continue *)
              applyBrackets taxableIncome rest
                totalTax remainingIncome bracketBreakdown
            else if leb max taxableIncome then
              tax (Qmin bracketWidth remainingIncome)
            else
              tax (taxableIncome - min bracket)
        end
  end.

Definition calculateTaxLiability (table : BracketTable)
    (taxableIncome : Q) (taxYear : Z) (filingStatus : string)
    : Result Liability :=
  if leb taxableIncome 0 then
    Return {| liability := 0; bracketBreakdown := [] |}
  else
    brackets ← getTaxBrackets table taxYear filingStatus;
    let '(totalTax, bracketBreakdown) :=
      applyBrackets taxableIncome brackets 0 taxableIncome [] in
    Return {| liability := roundToDollar totalTax;
              bracketBreakdown := bracketBreakdown |}.

(** ** Estimate, calculator.js lines 107-147 *)

Record TaxCalculationInputs : Type := mkInputs {
  in_totalWages : Q;
  in_totalWithheld : Q;
  in_standardDeduction : Q;
  in_filingStatus : string;
  in_taxYear : Z
}.

Record Results : Type := mkResults {
  totalWages : Q;
  totalWithheld : Q;
  standardDeduction : Q;
  taxableIncome : Q;
  taxLiability : Q;
  netDueRefund : Q;
  isRefund : bool;
  refundAmount : Q;
  amountDue : Q;
  res_bracketBreakdown : list TaxBracketResult;
  calculatedAt : Z
}.

(** [now] is the clock read by [new Date()]. *)
Definition calculateTaxEstimate (table : BracketTable) (now : Z)
    (inputs : TaxCalculationInputs) : Result Results :=
  let totalWages := in_totalWages inputs in
  let totalWithheld := in_totalWithheld inputs in
  let standardDeduction := in_standardDeduction inputs in
  let taxableIncome := Qmax 0 (totalWages - standardDeduction) in
  l ← calculateTaxLiability table taxableIncome
         (in_taxYear inputs) (in_filingStatus inputs);
  let netDueRefund := liability l - totalWithheld in
  let isRefund := ltb netDueRefund 0 in
  let refundAmount := if isRefund then Qabs netDueRefund else 0 in
  let amountDue := if negb isRefund then netDueRefund else 0 in
  Return {| totalWages := roundToDollar totalWages;
            totalWithheld := roundToDollar totalWithheld;
            standardDeduction := roundToDollar standardDeduction;
            taxableIncome := roundToDollar taxableIncome;
            taxLiability := roundToDollar (liability l);
            netDueRefund := roundToDollar netDueRefund;
            isRefund := isRefund;
            refundAmount := roundToDollar refundAmount;
            amountDue := roundToDollar amountDue;
            res_bracketBreakdown := bracketBreakdown l;
            calculatedAt := now |}.

(** ** Entries, types.js *)

Record W2Entry : Type := mkW2 {
  w2_id : option string;
  w2_label : option string;
  box1Wages : option Q;
  box2Withheld : option Q
}.

(** An absent optional field is [None]. *)
Record PaystubEntry : Type := mkPaystub {
  id : option string;
  label : option string;
  payDate : option string;
  ytdTaxableWages : option Q;
  ytdFedWithheld : option Q;
  currentTaxableWages : option Q;
  currentFedWithheld : option Q
}.

Record Totals : Type := mkTotals {
  sumWages : Q;
  sumWithheld : Q
}.

(** ** Strings: [trim] and [toLowerCase] on ASCII text *)

Fixpoint trimStart (s : string) : string :=
  match s with
  | String.String a s' => if Ascii.is_space a then trimStart s' else s
  | String.EmptyString => String.EmptyString
  end.

Definition trim (s : string) : string :=
  String.rev (trimStart (String.rev (trimStart s))).

Definition lowerAscii (a : Ascii.ascii) : Ascii.ascii :=
  let n := Ascii.nat_of_ascii a in
  if (65 <=? n)%nat && (n <=? 90)%nat then Ascii.ascii_of_nat (n + 32) else a.

Fixpoint toLowerCase (s : string) : string :=
  match s with
  | String.String a s' => String.String (lowerAscii a) (toLowerCase s')
  | String.EmptyString => String.EmptyString
  end.

(** [(entry.label || 'Unlabeled').trim().toLowerCase()]: the empty string
    is falsy. *)
Definition employerKey (entry : PaystubEntry) : string :=
  let raw := match label entry with
             | Some (String.String a s) => String.String a s
             | _ => "Unlabeled"%string
             end in
  toLowerCase (trim raw).

(** ** Aggregation, calculator.js lines 159-259 *)

Definition aggregateW2Entries (w2Entries : list W2Entry) : Totals :=
  match w2Entries with
  | [] => {| sumWages := 0; sumWithheld := 0 |}
  | _ =>
      let totalWages :=
        foldl (fun sum entry => sum + orElse (box1Wages entry) 0) 0 w2Entries in
      let totalWithheld :=
        foldl (fun sum entry => sum + orElse (box2Withheld entry) 0) 0 w2Entries in
      {| sumWages := roundToDollar totalWages;
         sumWithheld := roundToDollar totalWithheld |}
  end.

(** [byEmployer], an object used as a map from label to the array of the
    entries carrying it; kept in insertion order.  [Object.values] visits
    labels that look like array indices first; the totals are sums and do
    not depend on the order of the visit. *)
Abbreviation ByEmployer := (list (string * list PaystubEntry)).

(** [if (!byEmployer[label]) byEmployer[label] = [];
     byEmployer[label].push(entry)]. *)
Fixpoint pushEntry (key : string) (entry : PaystubEntry)
    (byEmployer : ByEmployer) : ByEmployer :=
  match byEmployer with
  | [] => [(key, [entry])]
  | (k, stubs) :: rest =>
      if decide (k = key) then (k, stubs ++ [entry]) :: rest
      else (k, stubs) :: pushEntry key entry rest
  end.

Definition groupByEmployer (paystubEntries : list PaystubEntry) : ByEmployer :=
  foldl (fun byEmployer entry => pushEntry (employerKey entry) entry byEmployer)
        [] paystubEntries.

Section Aggregation.

(** [new Date(s).getTime()]: the time value of a date string, [None] when
    the date is invalid ([NaN]). *)
Variable getTime : string → option Z.

(** The comparator handed to [sort]; [None] is a [NaN] result. *)
Definition compareStubs (a b : PaystubEntry) : option Q :=
  let byWages :=
    let wagesA := orElse (ytdTaxableWages a) 0 in
    let wagesB := orElse (ytdTaxableWages b) 0 in
    Some (wagesB - wagesA) in
  match payDate a, payDate b with
  | Some (String.String a1 sa), Some (String.String b1 sb) =>
      match getTime (String.String a1 sa), getTime (String.String b1 sb) with
      | Some dateA, Some dateB =>
          if decide (dateA ≠ dateB) then Some (inject_Z (dateB - dateA))
          else byWages
      | _, _ => None
      end
  | _, _ => byWages
  end.

(** [Array.prototype.sort] is a stable sort; a [NaN] from the comparator
    counts as [+0].  Modelled by stable insertion: an element stays before
    the later ones it does not compare strictly greater than.  Every stable
    sort gives this result when the comparator is consistent; when it is
    not, the language leaves the order to the implementation. *)
Definition sortCompare (x y : PaystubEntry) : Q :=
  default 0 (compareStubs x y).

Fixpoint insertStub (x : PaystubEntry) (sorted : list PaystubEntry)
    : list PaystubEntry :=
  match sorted with
  | [] => [x]
  | y :: rest =>
      if leb (sortCompare x y) 0 then x :: sorted
      else y :: insertStub x rest
  end.

Definition sortStubs (stubs : list PaystubEntry) : list PaystubEntry :=
  foldr insertStub [] stubs.

(** [ytd || current || 0] for the wages and the withholding of a stub. *)
Definition stubWages (stub : PaystubEntry) : Q :=
  orElse (ytdTaxableWages stub) (orElse (currentTaxableWages stub) 0).

Definition stubWithheld (stub : PaystubEntry) : Q :=
  orElse (ytdFedWithheld stub) (orElse (currentFedWithheld stub) 0).

(** The body of [Object.values(byEmployer).forEach]: the accumulators
    [(totalWages, totalWithheld)] after one group.  A group is never empty
    (see [groupByEmployer_grouped]). *)
Definition addEmployer (acc : Q * Q) (stubs : list PaystubEntry) : Q * Q :=
  match sortStubs stubs with
  | latestStub :: _ =>
      (acc.1 + stubWages latestStub, acc.2 + stubWithheld latestStub)
  | [] => acc
  end.

(** The accumulators before the final rounding. *)
Definition paystubSums (paystubEntries : list PaystubEntry) : Q * Q :=
  foldl addEmployer (0, 0) (snd <$> groupByEmployer paystubEntries).

Definition aggregatePaystubEntries (paystubEntries : list PaystubEntry)
    : Totals :=
  match paystubEntries with
  | [] => {| sumWages := 0; sumWithheld := 0 |}
  | _ =>
      let sums := paystubSums paystubEntries in
      {| sumWages := roundToDollar sums.1;
         sumWithheld := roundToDollar sums.2 |}
  end.

Definition aggregateAllEntries (w2Entries : list W2Entry)
    (paystubEntries : list PaystubEntry) : Totals :=
  let w2Totals := aggregateW2Entries w2Entries in
  let paystubTotals := aggregatePaystubEntries paystubEntries in
  {| sumWages := roundToDollar (sumWages w2Totals + sumWages paystubTotals);
     sumWithheld :=
       roundToDollar (sumWithheld w2Totals + sumWithheld paystubTotals) |}.

(** ** Complete workflow, calculator.js lines 362-380 *)

Definition calculateFromSession (deductions : DeductionTable)
    (brackets : BracketTable) (now : Z)
    (taxYear : Z) (filingStatus : string)
    (w2Entries : list W2Entry) (paystubEntries : list PaystubEntry)
    : Result Results :=
  let totals := aggregateAllEntries w2Entries paystubEntries in
  standardDeduction ← getStandardDeduction deductions taxYear filingStatus;
  let inputs := {| in_totalWages := sumWages totals;
                   in_totalWithheld := sumWithheld totals;
                   in_standardDeduction := standardDeduction;
                   in_filingStatus := filingStatus;
                   in_taxYear := taxYear |} in
  calculateTaxEstimate brackets now inputs.

End Aggregation.

(** ** Year-end projection, calculator.js lines 272-289 *)

Record Projection : Type := mkProjection {
  projectedWages : Q;
  projectedWithheld : Q
}.

Definition projectYearEnd (paystub : PaystubEntry) (paychecksRemaining : Q)
    : Projection :=
  let ytdWages := orElse (ytdTaxableWages paystub) 0 in
  let ytdWithheld := orElse (ytdFedWithheld paystub) 0 in
  let currentWages := orElse (currentTaxableWages paystub) 0 in
  let currentWithheld := orElse (currentFedWithheld paystub) 0 in
  let projectedAdditionalWages := currentWages * paychecksRemaining in
  let projectedAdditionalWithheld := currentWithheld * paychecksRemaining in
  {| projectedWages := roundToDollar (ytdWages + projectedAdditionalWages);
     projectedWithheld :=
       roundToDollar (ytdWithheld + projectedAdditionalWithheld) |}.

(** ** Reference notions used by the statements *)

(** The data-model invariant of a schedule whose first band starts at [lo]:
    bands are contiguous and ascending, each bounded band is non-empty, the
    last band and only the last is unbounded, every rate lies in (0, 1]. *)
Inductive Schedule : Q → list Bracket → Prop :=
  | Schedule_top lo b :
      min b == lo → max b = None → 0 < rate b → rate b <= 1 →
      Schedule lo [b]
  | Schedule_band lo hi b rest :
      min b == lo → max b = Some hi → lo < hi → 0 < rate b → rate b <= 1 →
      Schedule hi rest →
      Schedule lo (b :: rest).

Definition validSchedule (brackets : list Bracket) : Prop :=
  Schedule 0 brackets.

(** The entry of a table for a pair, if any. *)
Definition tableEntry {A : Type} (table : gmap Z (gmap string A))
    (taxYear : Z) (filingStatus : string) : option A :=
  byStatus ← table !! taxYear; byStatus !! filingStatus.

(** A number with no fractional part. *)
Definition isWhole (q : Q) : Prop := ∃ z : Z, q == inject_Z z.

(** Round half away from zero, as the specification words it. *)
Definition roundHalfAwayFromZero (x : Q) : Q :=
  if ltb x 0 then - inject_Z (Qfloor (- x + (1 # 2)))
  else inject_Z (Qfloor (x + (1 # 2))).

(** Sum of a list of amounts. *)
Definition sumQ (amounts : list Q) : Q := foldr Qplus 0 amounts.

(** The walk of [applyBrackets] with the values it computes before
    rounding: for each band that is pushed, the band and its unrounded
    [incomeInBracket]. *)
Fixpoint bandIncomes (taxableIncome : Q) (brackets : list Bracket)
    (remainingIncome : Q) : list (Bracket * Q) :=
  match brackets with
  | [] => []
  | bracket :: rest =>
      if leb remainingIncome 0 then []
      else
        let keep incomeInBracket :=
          (bracket, incomeInBracket)
            :: bandIncomes taxableIncome rest
                 (remainingIncome - incomeInBracket) in
        match max bracket with
        | None => keep remainingIncome
        | Some max =>
            if leb taxableIncome (min bracket) then
              bandIncomes taxableIncome rest remainingIncome
            else if leb max taxableIncome then
              keep (Qmin (max - min bracket) remainingIncome)
            else
              keep (taxableIncome - min bracket)
        end
  end.

(** The unrounded [taxFromBracket] of a band and its unrounded income. *)
Definition bandTax (c : Bracket * Q) : Q := c.2 * rate c.1.

(** What the loop pushes for a band and its unrounded income. *)
Definition reported (c : Bracket * Q) : TaxBracketResult :=
  {| br_rate := rate c.1;
     br_min := min c.1;
     br_max := max c.1;
     incomeInBracket := roundToDollar c.2;
     taxFromBracket := roundToDollar (bandTax c) |}.

(** The part of an income that lies within a band, in closed form. *)
Definition incomeWithin (taxableIncome : Q) (b : Bracket) : Q :=
  match max b with
  | None => Qmax 0 (taxableIncome - min b)
  | Some hi => Qmax 0 (Qmin (hi - min b) (taxableIncome - min b))
  end.


(** A band whose bounds are whole numbers. *)
Definition wholeBounds (b : Bracket) : Prop :=
  isWhole (min b) ∧ from_option isWhole True (max b).

(** ** Selection among the stubs of an employer *)

Section Selection.

Variable getTime : string → option Z.

Definition latestStub (stubs : list PaystubEntry) : option PaystubEntry :=
  head (sortStubs getTime stubs).

Definition ytdWages (e : PaystubEntry) : Q := orElse (ytdTaxableWages e) 0.

End Selection.

(** ** Concrete inputs of the scenarios *)

Definition scenarioA_w2 : W2Entry :=
  {| w2_id := None; w2_label := None;
     box1Wages := Some 60000; box2Withheld := Some 6000 |}.

Definition single2025 : list Bracket :=
  [ {| rate := 0.10; min := 0; max := Some 11600 |};
    {| rate := 0.12; min := 11600; max := Some 47150 |};
    {| rate := 0.22; min := 47150; max := Some 100525 |};
    {| rate := 0.24; min := 100525; max := Some 191950 |};
    {| rate := 0.32; min := 191950; max := Some 243725 |};
    {| rate := 0.35; min := 243725; max := Some 609350 |};
    {| rate := 0.37; min := 609350; max := None |} ].

(** A bracket table whose only schedule is empty, and one whose only
    schedule has a gap and no unbounded band. *)
Definition emptyScheduleTable : BracketTable :=
  {[ 2025%Z := {[ FILING_STATUSES.SINGLE := [] ]} ]}.

Definition gappedSchedule : list Bracket :=
  [ {| rate := 0.10; min := 0; max := Some 100 |};
    {| rate := 0.20; min := 500; max := Some 1000 |} ].

Definition gappedScheduleTable : BracketTable :=
  {[ 2025%Z := {[ FILING_STATUSES.SINGLE := gappedSchedule ]} ]}.

(** A stub whose year-to-date figures are present and equal to 0. *)
Definition zeroYtdStub : PaystubEntry :=
  {| id := None; label := Some "Acme"%string; payDate := None;
     ytdTaxableWages := Some 0; ytdFedWithheld := Some 0;
     currentTaxableWages := Some 500; currentFedWithheld := Some 50 |}.

Definition centsStub : PaystubEntry :=
  {| id := None; label := None; payDate := None;
     ytdTaxableWages := Some 100.4; ytdFedWithheld := Some 10.5;
     currentTaxableWages := None; currentFedWithheld := None |}.

Definition scenarioD_stub : PaystubEntry :=
  {| id := None; label := None; payDate := None;
     ytdTaxableWages := Some 20000; ytdFedWithheld := None;
     currentTaxableWages := Some 2000; currentFedWithheld := None |}.

(** Estimate inputs with half a dollar withheld and no wages. *)
Definition halfDollarInputs : TaxCalculationInputs :=
  {| in_totalWages := 0; in_totalWithheld := 1 # 2;
     in_standardDeduction := 15000;
     in_filingStatus := FILING_STATUSES.SINGLE; in_taxYear := 2025 |}.

(** The January and February stubs of one employer. *)
Definition janStub : PaystubEntry :=
  {| id := Some "jan"%string; label := Some "Acme Corp"%string;
     payDate := Some "2025-01-15"%string;
     ytdTaxableWages := Some 5000; ytdFedWithheld := Some 500;
     currentTaxableWages := None; currentFedWithheld := None |}.

(** ** Supported years and statuses, taxConfig.js lines 23 and 212-223 *)

Definition SUPPORTED_TAX_YEARS : list Z := [2025; 2026]%Z.

(** [SUPPORTED_TAX_YEARS.includes(taxYear)], taxConfig.js line 212. *)
Definition isSupportedTaxYear (taxYear : Z) : bool :=
  bool_decide (taxYear ∈ SUPPORTED_TAX_YEARS).

(** [Object.values(FILING_STATUSES).includes(filingStatus)], line 221. *)
Definition isSupportedFilingStatus (filingStatus : string) : bool :=
  bool_decide (filingStatus ∈ [FILING_STATUSES.SINGLE;
                               FILING_STATUSES.MARRIED_FILING_JOINTLY]).

(** ** The bands of a breakdown *)

(** The band of a reported contribution. *)
Definition bandOf (r : TaxBracketResult) : Bracket :=
  {| rate := br_rate r; min := br_min r; max := br_max r |}.

(** A band that the income reaches. *)
Definition reached (taxableIncome : Q) (b : Bracket) : Prop :=
  Is_true (ltb (min b) taxableIncome).

(** The contribution of a band in closed form. *)
Definition contribution (taxableIncome : Q) (b : Bracket) : TaxBracketResult :=
  reported (b, incomeWithin taxableIncome b).

(** ** The result record built by [calculateTaxEstimate] *)

(** The result of [calculateTaxEstimate] for a given liability. *)
Definition estimateOf (now : Z) (inputs : TaxCalculationInputs)
    (l : Liability) : Results :=
  let net := liability l - in_totalWithheld inputs in
  {| totalWages := roundToDollar (in_totalWages inputs);
     totalWithheld := roundToDollar (in_totalWithheld inputs);
     standardDeduction := roundToDollar (in_standardDeduction inputs);
     taxableIncome :=
       roundToDollar
         (Qmax 0 (in_totalWages inputs - in_standardDeduction inputs));
     taxLiability := roundToDollar (liability l);
     netDueRefund := roundToDollar net;
     isRefund := ltb net 0;
     refundAmount := roundToDollar (if ltb net 0 then Qabs net else 0);
     amountDue := roundToDollar (if negb (ltb net 0) then net else 0);
     res_bracketBreakdown := bracketBreakdown l;
     calculatedAt := now |}.

(** ** Session validators, validation module lines 619-681 *)

Record ValidationResult : Type := mkValidation {
  isValid : bool;
  errors : list string;
  warnings : list string;
  field : string
}.

(** [errors.length === 0]. *)
Definition noErrors (errors : list string) : bool :=
  bool_decide (length errors = 0%nat).

(** [validateTaxYear], validation module line 619.  [None] is a missing
    year; [!taxYear] also holds for 0. *)
Definition validateTaxYear (taxYear : option Z) : ValidationResult :=
  let errors :=
    match taxYear with
    | Some y =>
        if decide (y = 0%Z) then ["Tax year is required"%string]
        else if negb (isSupportedTaxYear y) then
          [("Tax year " +:+ pretty y
            +:+ " is not supported. Please select 2025 or 2026.")%string]
        else []
    | None => ["Tax year is required"%string]
    end in
  {| isValid := noErrors errors; errors := errors; warnings := [];
     field := "taxYear" |}.

(** [validateFilingStatus], line 642; the empty string is falsy. *)
Definition validateFilingStatus (filingStatus : option string)
    : ValidationResult :=
  let errors :=
    match filingStatus with
    | Some (String.String a s) =>
        if negb (isSupportedFilingStatus (String.String a s)) then
          ["Invalid filing status. Please select Single or Married Filing Jointly."%string]
        else []
    | _ => ["Filing status is required"%string]
    end in
  {| isValid := noErrors errors; errors := errors; warnings := [];
     field := "filingStatus" |}.

(** [validateInputMode], line 665. *)
Definition validateInputMode (inputMode : option string) : ValidationResult :=
  let validModes := ["w2_only"; "paystub_only"; "mixed"]%string in
  let errors :=
    match inputMode with
    | Some (String.String a s) =>
        if negb (bool_decide (String.String a s ∈ validModes)) then
          ["Invalid input mode. Please select a valid option."%string]
        else []
    | _ => ["Input mode is required"%string]
    end in
  {| isValid := noErrors errors; errors := errors; warnings := [];
     field := "inputMode" |}.

(** ** Duplicate detection, validation module lines 697-781 *)

(** [hay.includes(needle)]. *)
Fixpoint includes (hay needle : string) : bool :=
  String.prefix needle hay ||
  match hay with
  | String.String _ rest => includes rest needle
  | String.EmptyString => false
  end.

(** [s.split(/\s+/)] on ASCII text: pieces between maximal runs of white
    space; a run at either end leaves an empty piece there.  [skipping]
    holds inside a run, [piece] is the current piece reversed. *)
Fixpoint splitRuns (skipping : bool) (piece : string) (s : string)
    : list string :=
  match s with
  | String.EmptyString => [String.rev piece]
  | String.String a rest =>
      if Ascii.is_space a then
        if skipping then splitRuns true piece rest
        else String.rev piece :: splitRuns true String.EmptyString rest
      else splitRuns false (String.String a piece) rest
  end.

Definition splitWhitespace (s : string) : list string :=
  splitRuns false String.EmptyString s.

(** [calculateSimilarity(str1, str2)], line 758. *)
Definition calculateSimilarity (str1 str2 : string) : Q :=
  match str1, str2 with
  | String.EmptyString, _ | _, String.EmptyString => 0
  | _, _ =>
      if includes str1 str2 || includes str2 str1 then 0.8
      else
        let words1 := splitWhitespace str1 in
        let words2 := splitWhitespace str2 in
        let commonWords :=
          length (filter (fun word => word ∈ words2
                                      ∧ (2 < String.length word)%nat) words1) in
        let maxWords := Nat.max (length words1) (length words2) in
        if (0 <? maxWords)%nat
        then inject_Z (Z.of_nat commonWords) / inject_Z (Z.of_nat maxWords)
        else 0
  end.

Record DuplicateMatch : Type := mkMatch {
  match_w2 : W2Entry;
  match_paystub : PaystubEntry;
  similarity : Q
}.

Record DuplicateDetectionResult : Type := mkDuplicates {
  hasPotentialDuplicates : bool;
  matches : list DuplicateMatch;
  warningMessage : option string
}.

(** [(label || '').trim().toLowerCase()]. *)
Definition normalizedLabel (label : option string) : string :=
  toLowerCase (trim (default String.EmptyString label)).

(** The matches pushed by the two nested [forEach] loops. *)
Definition duplicateMatches (w2Entries : list W2Entry)
    (paystubEntries : list PaystubEntry) : list DuplicateMatch :=
  w2 ← w2Entries;
  let w2Label := normalizedLabel (w2_label w2) in
  match w2Label with
  | String.EmptyString => []
  | _ =>
      paystub ← paystubEntries;
      let paystubLabel := normalizedLabel (label paystub) in
      match paystubLabel with
      | String.EmptyString => []
      | _ =>
          let sim := calculateSimilarity w2Label paystubLabel in
          if ltb 0.6 sim
          then [ {| match_w2 := w2; match_paystub := paystub;
                    similarity := sim |} ]
          else []
      end
  end.

Definition doubleQuote : string :=
  String.String (Ascii.ascii_of_nat 34) String.EmptyString.

(** [m.w2.label || 'Unlabeled']. *)
Definition labelOrUnlabeled (label : option string) : string :=
  match label with
  | Some (String.String a s) => String.String a s
  | _ => "Unlabeled"%string
  end.

Definition detectDuplicates (w2Entries : list W2Entry)
    (paystubEntries : list PaystubEntry) : DuplicateDetectionResult :=
  let none := {| hasPotentialDuplicates := false; matches := [];
                 warningMessage := None |} in
  match w2Entries, paystubEntries with
  | [], _ | _, [] => none
  | _, _ =>
      let matches := duplicateMatches w2Entries paystubEntries in
      if (0 <? length matches)%nat then
        let employerNames :=
          String.concat ", "
            ((fun m => labelOrUnlabeled (w2_label (match_w2 m))) <$> matches) in
        {| hasPotentialDuplicates := true;
           matches := matches;
           warningMessage :=
             Some ("Potential duplicate detected: You have both W-2 and paystub entries for "
                   +:+ doubleQuote +:+ employerNames +:+ doubleQuote
                   +:+ ". Make sure you're not double-counting income from the same employer.")%string |}
      else none
  end.

Definition sampleW2 : W2Entry :=
  {| w2_id := None; w2_label := Some " Acme CORP"%string;
     box1Wages := Some 60000; box2Withheld := Some 6000 |}.

(** * The engine on doubles

    The definitions above compute with exact rationals and read the tables
    by their own keys.  The module [Js] repeats the engine closer to the
    letter of the language: a number is an IEEE 754 binary64 value
    ([float], with [NaN], the infinities and the two zeros), every [+], [-]
    and [*] is the rounded operation of the machine, a property read on a
    plain object ([table[year][status]], [byEmployer[label]]) falls back on
    [Object.prototype], and [Array.prototype.sort] is any sort the language
    allows. *)

Module Js.

Set Warnings "-inexact-float".

Local Open Scope float_scope.

(** ** Numbers *)

(** ToBoolean of a number: [0], [-0] and [NaN] are falsy. *)
Definition truthy (x : float) : bool := negb (is_zero x || is_nan x).

(** [x || d] on an optional number. *)
Definition orElse (x : option float) (d : float) : float :=
  match x with
  | Some v => if truthy v then v else d
  | None => d
  end.

(** The double nearest to a whole number; exact up to [2^53]. *)
Definition Z2F (z : Z) : float :=
  SF2Prim (binary_normalize prec emax z 0 false).

(** [Math.round(x)]: [x] itself when it is [NaN], infinite or whole,
    otherwise [floor(x + 0.5)] computed exactly; a result of zero keeps the
    sign of [x]. *)
Definition Math_round (x : float) : float :=
  match Prim2SF x with
  | S754_finite s m e =>
      if (0 <=? e)%Z then x
      else
        let n := ((cond_Zopp s (Z.pos m) * 2 + 2 ^ (- e)) / 2 ^ (1 - e))%Z in
        if (n =? 0)%Z then (if s then -0 else 0) else Z2F n
  | _ => x
  end.

(** [Math.max(a, b)] and [Math.min(a, b)]: [NaN] when an argument is
    [NaN]; [-0] counts as smaller than [+0]. *)
Definition Math_max (a b : float) : float :=
  if is_nan a || is_nan b then nan
  else if a <? b then b
  else if b <? a then a
  else if is_zero a then a + b
  else a.

Definition Math_min (a b : float) : float :=
  if is_nan a || is_nan b then nan
  else if a <? b then a
  else if b <? a then b
  else if is_zero a then - (- a + - b)
  else a.

(** [roundToDollar(amount)], calculator.js line 301. *)
Definition roundToDollar (amount : float) : float := Math_round amount.

(** ** Errors *)

Inductive Error : Type :=
  | UnsupportedTaxYear (taxYear : Z)
  | UnsupportedFilingStatus (filingStatus : string) (taxYear : Z)
  | TypeError.

Inductive Result (A : Type) : Type :=
  | Return (a : A)
  | Throw (e : Error).
Arguments Return {A} a.
Arguments Throw {A} e.

#[global] Instance Result_ret : MRet Result := fun A a => Return a.
#[global] Instance Result_fmap : FMap Result := fun A B f r =>
  match r with
  | Return a => Return (f a)
  | Throw e => Throw e
  end.
#[global] Instance Result_bind : MBind Result := fun A B k r =>
  match r with
  | Return a => k a
  | Throw e => Throw e
  end.

(** ** Property reads on plain objects *)

(** What [Object.prototype] holds under a key: a built-in function, with
    its number of declared parameters [length], or, under [__proto__], an
    object. *)
Inductive Inherited : Type :=
  | InheritedFunction (length : nat)
  | InheritedObject.

Definition Object_prototype (key : string) : option Inherited :=
  if decide (key ∈ ["toString"; "toLocaleString"; "valueOf"]%string)
  then Some (InheritedFunction 0)
  else if decide (key ∈ ["constructor"; "hasOwnProperty"; "isPrototypeOf";
                         "propertyIsEnumerable"; "__lookupGetter__";
                         "__lookupSetter__"]%string)
  then Some (InheritedFunction 1)
  else if decide (key ∈ ["__defineGetter__"; "__defineSetter__"]%string)
  then Some (InheritedFunction 2)
  else if decide (key = "__proto__"%string) then Some InheritedObject
  else None.

(** The value of [object[key]]: an own property, else an inherited one,
    else [undefined] ([None]). *)
Inductive Property (A : Type) : Type :=
  | Own (a : A)
  | Inherit (i : Inherited).
Arguments Own {A} a.
Arguments Inherit {A} i.

Definition getProperty {A} (own : gmap string A) (key : string)
    : option (Property A) :=
  match own !! key with
  | Some a => Some (Own a)
  | None => Inherit <$> Object_prototype key
  end.

(** ToNumber of what a read of a table of numbers gives: a function or an
    object converts to [NaN]. *)
Definition toNumber (p : Property float) : float :=
  match p with
  | Own x => x
  | Inherit _ => nan
  end.

(** ** Schedule tables, taxConfig.js *)

Record Bracket : Type := mkBracket {
  rate : float;
  min : float;
  max : option float
}.

Abbreviation DeductionTable := (gmap Z (gmap string float)).
Abbreviation BracketTable := (gmap Z (gmap string (list Bracket))).

Definition STANDARD_DEDUCTIONS : DeductionTable :=
  {[ 2025%Z := {[ FILING_STATUSES.SINGLE := 15000;
                  FILING_STATUSES.MARRIED_FILING_JOINTLY := 30000 ]};
     2026%Z := {[ FILING_STATUSES.SINGLE := 15400;
                  FILING_STATUSES.MARRIED_FILING_JOINTLY := 30800 ]} ]}.

Definition TAX_BRACKETS : BracketTable :=
  {[ 2025%Z :=
       {[ FILING_STATUSES.SINGLE :=
            [ {| rate := 0.10; min := 0; max := Some 11600 |};
              {| rate := 0.12; min := 11600; max := Some 47150 |};
              {| rate := 0.22; min := 47150; max := Some 100525 |};
              {| rate := 0.24; min := 100525; max := Some 191950 |};
              {| rate := 0.32; min := 191950; max := Some 243725 |};
              {| rate := 0.35; min := 243725; max := Some 609350 |};
              {| rate := 0.37; min := 609350; max := None |} ];
          FILING_STATUSES.MARRIED_FILING_JOINTLY :=
            [ {| rate := 0.10; min := 0; max := Some 23200 |};
              {| rate := 0.12; min := 23200; max := Some 94300 |};
              {| rate := 0.22; min := 94300; max := Some 201050 |};
              {| rate := 0.24; min := 201050; max := Some 383900 |};
              {| rate := 0.32; min := 383900; max := Some 487450 |};
              {| rate := 0.35; min := 487450; max := Some 731200 |};
              {| rate := 0.37; min := 731200; max := None |} ] ]};
     2026%Z :=
       {[ FILING_STATUSES.SINGLE :=
            [ {| rate := 0.10; min := 0; max := Some 11900 |};
              {| rate := 0.12; min := 11900; max := Some 48350 |};
              {| rate := 0.22; min := 48350; max := Some 103050 |};
              {| rate := 0.24; min := 103050; max := Some 196750 |};
              {| rate := 0.32; min := 196750; max := Some 249825 |};
              {| rate := 0.35; min := 249825; max := Some 624600 |};
              {| rate := 0.37; min := 624600; max := None |} ];
          FILING_STATUSES.MARRIED_FILING_JOINTLY :=
            [ {| rate := 0.10; min := 0; max := Some 23800 |};
              {| rate := 0.12; min := 23800; max := Some 96700 |};
              {| rate := 0.22; min := 96700; max := Some 206100 |};
              {| rate := 0.24; min := 206100; max := Some 393500 |};
              {| rate := 0.32; min := 393500; max := Some 499650 |};
              {| rate := 0.35; min := 499650; max := Some 749500 |};
              {| rate := 0.37; min := 749500; max := None |} ] ]} ]}.

(** [getStandardDeduction], taxConfig.js line 176.  The year is a number,
    whose key is never the name of an inherited property; the status is any
    string.  [!table[y][s]] rejects a missing key and an own amount that is
    falsy; an inherited function or object is truthy and is returned. *)
Definition getStandardDeduction (table : DeductionTable)
    (taxYear : Z) (filingStatus : string) : Result (Property float) :=
  match table !! taxYear with
  | None => Throw (UnsupportedTaxYear taxYear)
  | Some byStatus =>
      match getProperty byStatus filingStatus with
      | None => Throw (UnsupportedFilingStatus filingStatus taxYear)
      | Some (Own amount) =>
          if truthy amount then Return (Own amount)
          else Throw (UnsupportedFilingStatus filingStatus taxYear)
      | Some (Inherit i) => Return (Inherit i)
      end
  end.

(** [getTaxBrackets], taxConfig.js line 195.  An array is truthy even when
    empty. *)
Definition getTaxBrackets (table : BracketTable)
    (taxYear : Z) (filingStatus : string)
    : Result (Property (list Bracket)) :=
  match table !! taxYear with
  | None => Throw (UnsupportedTaxYear taxYear)
  | Some byStatus =>
      match getProperty byStatus filingStatus with
      | None => Throw (UnsupportedFilingStatus filingStatus taxYear)
      | Some brackets => Return brackets
      end
  end.

(** ** Progressive tax, calculator.js lines 34-99 *)

Record TaxBracketResult : Type := mkTaxBracketResult {
  br_rate : float;
  br_min : float;
  br_max : option float;
  incomeInBracket : float;
  taxFromBracket : float
}.

Record Liability : Type := mkLiability {
  liability : float;
  bracketBreakdown : list TaxBracketResult
}.

(** The [for] loop over an array of brackets, from index [i] on. *)
Fixpoint applyBrackets (taxableIncome : float) (brackets : list Bracket)
    (totalTax remainingIncome : float)
    (bracketBreakdown : list TaxBracketResult)
    : float * list TaxBracketResult :=
  match brackets with
  | [] => (totalTax, bracketBreakdown)
  | bracket :: rest =>
      if remainingIncome <=? 0 then (totalTax, bracketBreakdown) (* break *)
      else
        let tax incomeInBracket :=
          let taxFromBracket := incomeInBracket * rate bracket in
          applyBrackets taxableIncome rest
            (totalTax + taxFromBracket)
            (remainingIncome - incomeInBracket)
            (bracketBreakdown ++
               [ {| br_rate := rate bracket;
                    br_min := min bracket;
                    br_max := max bracket;
                    incomeInBracket := roundToDollar incomeInBracket;
                    taxFromBracket := roundToDollar taxFromBracket |} ]) in
        match max bracket with
        | None => tax remainingIncome
        | Some max =>
            let bracketWidth := max - min bracket in
            if taxableIncome <=? min bracket then (* continue *)
              applyBrackets taxableIncome rest
                totalTax remainingIncome bracketBreakdown
            else if max <=? taxableIncome then
              tax (Math_min bracketWidth remainingIncome)
            else
              tax (taxableIncome - min bracket)
        end
  end.

(** When the lookup found an inherited property instead of an array, the
    loop runs up to its [length]: not at all for a function without
    parameters and for the object under [__proto__] (whose [length] is
    [undefined]); otherwise [brackets[0]] is [undefined] and taking it
    apart throws. *)
Definition calculateTaxLiability (table : BracketTable)
    (taxableIncome : float) (taxYear : Z) (filingStatus : string)
    : Result Liability :=
  if taxableIncome <=? 0 then
    Return {| liability := 0; bracketBreakdown := [] |}
  else
    brackets ← getTaxBrackets table taxYear filingStatus;
    match brackets with
    | Own brackets =>
        let '(totalTax, bracketBreakdown) :=
          applyBrackets taxableIncome brackets 0 taxableIncome [] in
        Return {| liability := roundToDollar totalTax;
                  bracketBreakdown := bracketBreakdown |}
    | Inherit (InheritedFunction (S _)) => Throw TypeError
    | Inherit _ =>
        Return {| liability := roundToDollar 0; bracketBreakdown := [] |}
    end.

(** ** Estimate, calculator.js lines 107-147 *)

Record TaxCalculationInputs : Type := mkInputs {
  in_totalWages : float;
  in_totalWithheld : float;
  in_standardDeduction : float;
  in_filingStatus : string;
  in_taxYear : Z
}.

Record Results : Type := mkResults {
  totalWages : float;
  totalWithheld : float;
  standardDeduction : float;
  taxableIncome : float;
  taxLiability : float;
  netDueRefund : float;
  isRefund : bool;
  refundAmount : float;
  amountDue : float;
  res_bracketBreakdown : list TaxBracketResult;
  calculatedAt : Z
}.

(** [now] is the clock read by [new Date()]. *)
Definition calculateTaxEstimate (table : BracketTable) (now : Z)
    (inputs : TaxCalculationInputs) : Result Results :=
  let totalWages := in_totalWages inputs in
  let totalWithheld := in_totalWithheld inputs in
  let standardDeduction := in_standardDeduction inputs in
  let taxableIncome := Math_max 0 (totalWages - standardDeduction) in
  l ← calculateTaxLiability table taxableIncome
         (in_taxYear inputs) (in_filingStatus inputs);
  let netDueRefund := liability l - totalWithheld in
  let isRefund := netDueRefund <? 0 in
  let refundAmount := if isRefund then abs netDueRefund else 0 in
  let amountDue := if negb isRefund then netDueRefund else 0 in
  Return {| totalWages := roundToDollar totalWages;
            totalWithheld := roundToDollar totalWithheld;
            standardDeduction := roundToDollar standardDeduction;
            taxableIncome := roundToDollar taxableIncome;
            taxLiability := roundToDollar (liability l);
            netDueRefund := roundToDollar netDueRefund;
            isRefund := isRefund;
            refundAmount := roundToDollar refundAmount;
            amountDue := roundToDollar amountDue;
            res_bracketBreakdown := bracketBreakdown l;
            calculatedAt := now |}.

(** ** Entries, types.js *)

Record W2Entry : Type := mkW2 {
  w2_id : option string;
  w2_label : option string;
  box1Wages : option float;
  box2Withheld : option float
}.

Record PaystubEntry : Type := mkPaystub {
  id : option string;
  label : option string;
  payDate : option string;
  ytdTaxableWages : option float;
  ytdFedWithheld : option float;
  currentTaxableWages : option float;
  currentFedWithheld : option float
}.

Record Totals : Type := mkTotals {
  sumWages : float;
  sumWithheld : float
}.

(** ** Aggregation, calculator.js lines 159-259 *)

Definition aggregateW2Entries (w2Entries : list W2Entry) : Totals :=
  match w2Entries with
  | [] => {| sumWages := 0; sumWithheld := 0 |}
  | _ =>
      let totalWages :=
        foldl (fun sum entry => sum + orElse (box1Wages entry) 0) 0 w2Entries in
      let totalWithheld :=
        foldl (fun sum entry => sum + orElse (box2Withheld entry) 0) 0 w2Entries in
      {| sumWages := roundToDollar totalWages;
         sumWithheld := roundToDollar totalWithheld |}
  end.

(** The own properties of [byEmployer], in the order of their creation. *)
Abbreviation ByEmployer := (list (string * list PaystubEntry)).

(** [byEmployer[label].push(entry)] when [label] is an own property. *)
Fixpoint pushOwn (key : string) (entry : PaystubEntry)
    (byEmployer : ByEmployer) : option ByEmployer :=
  match byEmployer with
  | [] => None
  | (k, stubs) :: rest =>
      if decide (k = key) then Some ((k, stubs ++ [entry]) :: rest)
      else cons (k, stubs) <$> pushOwn key entry rest
  end.

(** [if (!byEmployer[label]) byEmployer[label] = [];
     byEmployer[label].push(entry)].  A label that names an inherited
    property reads as a function or an object, which is truthy and has no
    [push]: the call throws. *)
Definition pushEntry (key : string) (entry : PaystubEntry)
    (byEmployer : ByEmployer) : Result ByEmployer :=
  match pushOwn key entry byEmployer with
  | Some byEmployer' => Return byEmployer'
  | None =>
      match Object_prototype key with
      | Some _ => Throw TypeError
      | None => Return (byEmployer ++ [(key, [entry])])
      end
  end.

(** A key that is an array index (the canonical decimal form of a whole
    number below [2^32 - 1]). *)
Fixpoint digitsValue (acc : N) (s : string) : option N :=
  match s with
  | String.EmptyString => Some acc
  | String.String a rest =>
      let n := Ascii.N_of_ascii a in
      if (48 <=? n)%N && (n <=? 57)%N
      then digitsValue (acc * 10 + (n - 48))%N rest
      else None
  end.

Definition arrayIndex (key : string) : option N :=
  match key with
  | String.EmptyString => None
  | _ =>
      n ← digitsValue 0 key;
      if decide (pretty n = key ∧ (n < 4294967295)%N) then Some n else None
  end.

Fixpoint insertIndex {A} (n : N) (v : A) (l : list (N * A)) : list (N * A) :=
  match l with
  | [] => [(n, v)]
  | (m, w) :: rest =>
      if (n <? m)%N then (n, v) :: l else (m, w) :: insertIndex n v rest
  end.

(** [Object.values(object)]: the values under array indices in ascending
    order, then the others in the order of their creation. *)
Definition Object_values {A} (object : list (string * A)) : list A :=
  let indexed :=
    foldr (fun '(k, v) acc =>
             match arrayIndex k with
             | Some n => insertIndex n v acc
             | None => acc
             end) [] object in
  (snd <$> indexed)
  ++ (snd <$> filter (fun kv => arrayIndex kv.1 = None) object).

(** [Array.prototype.sort(comparefn)] reads a [NaN] from the comparator
    as [+0].  [stableSort] is the stable sort by insertion; the order of
    elements that compare equal is kept. *)
Section Sort.
Context {A : Type} (comparefn : A → A → float).

Definition sortsBefore (x y : A) : bool := negb (0 <? comparefn x y).

Fixpoint insertSorted (x : A) (sorted : list A) : list A :=
  match sorted with
  | [] => [x]
  | y :: rest =>
      if sortsBefore x y then x :: sorted else y :: insertSorted x rest
  end.

Definition stableSort (l : list A) : list A := foldr insertSorted [] l.

(** The sign the sort reads. *)
Definition sign (x y : A) : comparison :=
  let v := comparefn x y in
  if v <? 0 then Lt else if 0 <? v then Gt else Eq.

(** A consistent comparator on the elements of [l], as the language
    defines it: [=] is an equivalence, [<] and [>] are transitive and
    opposite to each other. *)
Definition consistent (l : list A) : bool :=
  forallb (fun a =>
    bool_decide (sign a a = Eq) &&
    forallb (fun b =>
      bool_decide (sign a b = CompOpp (sign b a)) &&
      forallb (fun c =>
        bool_decide (sign a b = sign b c → sign a c = sign a b)) l) l) l.

End Sort.

(** What the language promises of a [sort]: the result holds the same
    elements; with a consistent comparator it is the stable sorted order;
    otherwise the order is left to the implementation. *)
Definition SortSpec {A}
    (sort : (A → A → float) → list A → list A) : Prop :=
  (∀ comparefn l, sort comparefn l ≡ₚ l) ∧
  (∀ comparefn l, consistent comparefn l = true →
                  sort comparefn l = stableSort comparefn l).

Section Aggregation.

(** [String.prototype.trim] and [String.prototype.toLowerCase], which
    strip the white space and fold the letters of Unicode. *)
Variable trim toLowerCase : string → string.

(** [new Date(s).getTime()]: the time value of a date string, [NaN] when
    the string is no date. *)
Variable getTime : string → float.

(** The engine's [Array.prototype.sort]. *)
Variable sort : (PaystubEntry → PaystubEntry → float)
                → list PaystubEntry → list PaystubEntry.

(** [(entry.label || 'Unlabeled').trim().toLowerCase()]. *)
Definition employerKey (entry : PaystubEntry) : string :=
  let raw := match label entry with
             | Some (String.String a s) => String.String a s
             | _ => "Unlabeled"%string
             end in
  toLowerCase (trim raw).

(** The first [forEach]: the entries are filed under their keys, in the
    order of the input. *)
Fixpoint groupInto (byEmployer : ByEmployer)
    (paystubEntries : list PaystubEntry) : Result ByEmployer :=
  match paystubEntries with
  | [] => Return byEmployer
  | entry :: rest =>
      byEmployer' ← pushEntry (employerKey entry) entry byEmployer;
      groupInto byEmployer' rest
  end.

Definition groupByEmployer (paystubEntries : list PaystubEntry)
    : Result ByEmployer :=
  groupInto [] paystubEntries.

(** The comparator handed to [sort]. *)
Definition compareStubs (a b : PaystubEntry) : float :=
  let byWages :=
    let wagesA := orElse (ytdTaxableWages a) 0 in
    let wagesB := orElse (ytdTaxableWages b) 0 in
    wagesB - wagesA in
  match payDate a, payDate b with
  | Some (String.String a1 sa), Some (String.String b1 sb) =>
      let dateA := getTime (String.String a1 sa) in
      let dateB := getTime (String.String b1 sb) in
      if negb (dateA =? dateB) then dateB - dateA else byWages
  | _, _ => byWages
  end.

(** [ytd || current || 0] for the wages and the withholding of a stub. *)
Definition stubWages (stub : PaystubEntry) : float :=
  orElse (ytdTaxableWages stub) (orElse (currentTaxableWages stub) 0).

Definition stubWithheld (stub : PaystubEntry) : float :=
  orElse (ytdFedWithheld stub) (orElse (currentFedWithheld stub) 0).

(** The body of [Object.values(byEmployer).forEach]: the accumulators
    [(totalWages, totalWithheld)] after one group.  Reading a field of
    [sorted[0]] would throw on an empty array. *)
Definition addEmployer (acc : float * float) (stubs : list PaystubEntry)
    : Result (float * float) :=
  match sort compareStubs stubs with
  | latestStub :: _ =>
      Return (acc.1 + stubWages latestStub, acc.2 + stubWithheld latestStub)
  | [] => Throw TypeError
  end.

Fixpoint addEmployers (acc : float * float)
    (groups : list (list PaystubEntry)) : Result (float * float) :=
  match groups with
  | [] => Return acc
  | stubs :: rest => acc' ← addEmployer acc stubs; addEmployers acc' rest
  end.

Definition aggregatePaystubEntries (paystubEntries : list PaystubEntry)
    : Result Totals :=
  match paystubEntries with
  | [] => Return {| sumWages := 0; sumWithheld := 0 |}
  | _ =>
      byEmployer ← groupByEmployer paystubEntries;
      sums ← addEmployers (0, 0) (Object_values byEmployer);
      Return {| sumWages := roundToDollar sums.1;
                sumWithheld := roundToDollar sums.2 |}
  end.

Definition aggregateAllEntries (w2Entries : list W2Entry)
    (paystubEntries : list PaystubEntry) : Result Totals :=
  let w2Totals := aggregateW2Entries w2Entries in
  paystubTotals ← aggregatePaystubEntries paystubEntries;
  Return
    {| sumWages := roundToDollar (sumWages w2Totals + sumWages paystubTotals);
       sumWithheld :=
         roundToDollar (sumWithheld w2Totals + sumWithheld paystubTotals) |}.

(** ** Complete workflow, calculator.js lines 362-380.  Every use that
    [calculateTaxEstimate] makes of [standardDeduction] is arithmetic, so
    an inherited function or object counts as [NaN] there. *)
Definition calculateFromSession (deductions : DeductionTable)
    (brackets : BracketTable) (now : Z)
    (taxYear : Z) (filingStatus : string)
    (w2Entries : list W2Entry) (paystubEntries : list PaystubEntry)
    : Result Results :=
  totals ← aggregateAllEntries w2Entries paystubEntries;
  standardDeduction ← getStandardDeduction deductions taxYear filingStatus;
  let inputs := {| in_totalWages := sumWages totals;
                   in_totalWithheld := sumWithheld totals;
                   in_standardDeduction := toNumber standardDeduction;
                   in_filingStatus := filingStatus;
                   in_taxYear := taxYear |} in
  calculateTaxEstimate brackets now inputs.

End Aggregation.

(** ** Year-end projection, calculator.js lines 272-289 *)

Record Projection : Type := mkProjection {
  projectedWages : float;
  projectedWithheld : float
}.

Definition projectYearEnd (paystub : PaystubEntry) (paychecksRemaining : float)
    : Projection :=
  let ytdWages := orElse (ytdTaxableWages paystub) 0 in
  let ytdWithheld := orElse (ytdFedWithheld paystub) 0 in
  let currentWages := orElse (currentTaxableWages paystub) 0 in
  let currentWithheld := orElse (currentFedWithheld paystub) 0 in
  let projectedAdditionalWages := currentWages * paychecksRemaining in
  let projectedAdditionalWithheld := currentWithheld * paychecksRemaining in
  {| projectedWages := roundToDollar (ytdWages + projectedAdditionalWages);
     projectedWithheld :=
       roundToDollar (ytdWithheld + projectedAdditionalWithheld) |}.

(** ** Reference notions used by the statements *)

(** The value of a finite double ([0] for the others). *)
Definition SF2Q (x : spec_float) : Q :=
  match x with
  | S754_finite s m e => (inject_Z (cond_Zopp s (Z.pos m)) * Qpower 2 e)%Q
  | _ => 0%Q
  end.

Definition F2Q (x : float) : Q := SF2Q (Prim2SF x).

(** [Number.isFinite(x)]. *)
Definition isFinite (x : float) : bool :=
  match Prim2SF x with
  | S754_finite _ _ _ | S754_zero _ => true
  | _ => false
  end.

(** The canonical form of a whole number of at most 53 bits (the mantissa
    is brought to 53 bits), and the double of a whole number. *)
Definition canonicalZ (s : bool) (p : positive) : spec_float :=
  let d := Z.pos (digits2_pos p) in
  S754_finite s (Z.to_pos (Z.pos p * 2 ^ (53 - d))) (d - 53).

Definition SFZ (z : Z) : spec_float :=
  match z with
  | 0%Z => S754_zero false
  | Z.pos p => canonicalZ false p
  | Z.neg p => canonicalZ true p
  end.

(** The walk of [applyBrackets] with the values it computes before
    rounding: for each band that is pushed, the band and its unrounded
    [incomeInBracket]. *)
Fixpoint bandIncomes (taxableIncome : float) (brackets : list Bracket)
    (remainingIncome : float) : list (Bracket * float) :=
  match brackets with
  | [] => []
  | bracket :: rest =>
      if remainingIncome <=? 0 then []
      else
        let keep incomeInBracket :=
          (bracket, incomeInBracket)
            :: bandIncomes taxableIncome rest
                 (remainingIncome - incomeInBracket) in
        match max bracket with
        | None => keep remainingIncome
        | Some max =>
            if taxableIncome <=? min bracket then
              bandIncomes taxableIncome rest remainingIncome
            else if max <=? taxableIncome then
              keep (Math_min (max - min bracket) remainingIncome)
            else
              keep (taxableIncome - min bracket)
        end
  end.

(** The unrounded [taxFromBracket] of a band and its unrounded income. *)
Definition bandTax (c : Bracket * float) : float := c.2 * rate c.1.

(** What the loop pushes for a band and its unrounded income. *)
Definition reported (c : Bracket * float) : TaxBracketResult :=
  {| br_rate := rate c.1;
     br_min := min c.1;
     br_max := max c.1;
     incomeInBracket := roundToDollar c.2;
     taxFromBracket := roundToDollar (bandTax c) |}.

(** [totalTax] after the loop: the unrounded taxes of the bands, added in
    the order of the bands. *)
Definition totalOf (unrounded : list (Bracket * float)) : float :=
  foldl (fun totalTax c => totalTax + bandTax c) 0 unrounded.

(** A schedule whose bounds are whole numbers below [2^53], starting at
    [lo]: the bands are contiguous and ascending, and the last band, and
    only the last, is unbounded.  The rates are not constrained. *)
Inductive WholeSchedule : Z → list Bracket → Prop :=
  | WholeSchedule_top lo b :
      min b = Z2F lo → max b = None → WholeSchedule lo [b]
  | WholeSchedule_band lo hi b rest :
      min b = Z2F lo → max b = Some (Z2F hi) → (lo < hi < 2 ^ 53)%Z →
      WholeSchedule hi rest →
      WholeSchedule lo (b :: rest).

(** ** Concrete inputs of the scenarios *)

Definition scenarioA_w2 : W2Entry :=
  {| w2_id := None; w2_label := None;
     box1Wages := Some 60000; box2Withheld := Some 6000 |}.

(** A bracket table whose only schedule is empty, and one whose only
    schedule has a gap and no unbounded band. *)
Definition emptyScheduleTable : BracketTable :=
  {[ 2025%Z := {[ FILING_STATUSES.SINGLE := [] ]} ]}.

Definition gappedSchedule : list Bracket :=
  [ {| rate := 0.10; min := 0; max := Some 100 |};
    {| rate := 0.20; min := 500; max := Some 1000 |} ].

Definition gappedScheduleTable : BracketTable :=
  {[ 2025%Z := {[ FILING_STATUSES.SINGLE := gappedSchedule ]} ]}.

Definition scenarioD_stub : PaystubEntry :=
  {| id := None; label := None; payDate := None;
     ytdTaxableWages := Some 20000; ytdFedWithheld := None;
     currentTaxableWages := Some 2000; currentFedWithheld := None |}.

(** A stub paid one cent so far and 83 cents per period. *)
Definition centsStub : PaystubEntry :=
  {| id := None; label := None; payDate := None;
     ytdTaxableWages := Some 0.01; ytdFedWithheld := None;
     currentTaxableWages := Some 0.83; currentFedWithheld := None |}.

(** Two stubs of one employer whose pay dates are present and are no
    dates; the second has the higher year-to-date wages. *)
Definition undatedLow : PaystubEntry :=
  {| id := Some "a"%string; label := Some "Acme"%string;
     payDate := Some "TBD"%string;
     ytdTaxableWages := Some 100; ytdFedWithheld := Some 10;
     currentTaxableWages := None; currentFedWithheld := None |}.

Definition undatedHigh : PaystubEntry :=
  {| id := Some "b"%string; label := Some "Acme"%string;
     payDate := Some "TBD"%string;
     ytdTaxableWages := Some 200; ytdFedWithheld := Some 20;
     currentTaxableWages := None; currentFedWithheld := None |}.

(** Two stubs of one employer with the same year-to-date wages, 0. *)
Definition zeroYtdStub : PaystubEntry :=
  {| id := None; label := Some "Acme"%string; payDate := None;
     ytdTaxableWages := Some 0; ytdFedWithheld := Some 0;
     currentTaxableWages := Some 500; currentFedWithheld := Some 50 |}.

Definition zeroYtdLater : PaystubEntry :=
  {| id := None; label := Some "Acme"%string; payDate := None;
     ytdTaxableWages := Some 0; ytdFedWithheld := Some 0;
     currentTaxableWages := Some 700; currentFedWithheld := Some 70 |}.

(** Estimate inputs with no wages and half a dollar withheld, and with
    half a dollar of negative withholding. *)
Definition halfDollarInputs : TaxCalculationInputs :=
  {| in_totalWages := 0; in_totalWithheld := 0.5;
     in_standardDeduction := 15000;
     in_filingStatus := FILING_STATUSES.SINGLE; in_taxYear := 2025 |}.

Definition negativeHalfInputs : TaxCalculationInputs :=
  {| in_totalWages := 0; in_totalWithheld := -0.5;
     in_standardDeduction := 15000;
     in_filingStatus := FILING_STATUSES.SINGLE; in_taxYear := 2025 |}.

End Js.

(** * Properties *)

(** ** Basic facts *)

Lemma leb_le a b : leb a b = true ↔ a <= b.
Proof. apply Qle_bool_iff. Qed.

Lemma leb_gt a b : leb a b = false ↔ b < a.
Proof.
  unfold leb. rewrite <- not_true_iff_false, Qle_bool_iff.
  split; [apply Qnot_le_lt | apply Qlt_not_le].
Qed.

Lemma ltb_lt a b : ltb a b = true ↔ a < b.
Proof. unfold ltb. rewrite negb_true_iff. apply leb_gt. Qed.

Lemma ltb_ge a b : ltb a b = false ↔ b <= a.
Proof. unfold ltb. rewrite negb_false_iff. apply leb_le. Qed.

#[export] Instance roundToDollar_proper : Proper (Qeq ==> eq) roundToDollar.
Proof.
  intros x y Hxy. unfold roundToDollar, Math_round.
  f_equal. apply Qfloor_comp. now rewrite Hxy.
Qed.

Lemma roundToDollar_whole z : roundToDollar (inject_Z z) = inject_Z z.
Proof.
  unfold roundToDollar, Math_round. f_equal.
  assert (H : inject_Z z + (1 # 2) == (2 * z + 1 # 2)).
  { unfold Qeq, Qplus, inject_Z; simpl. lia. }
  rewrite (Qfloor_comp _ _ H). unfold Qfloor.
  symmetry. apply Z.div_unique with (r := 1%Z); lia.
Qed.

Lemma roundToDollar_isWhole q : isWhole q → roundToDollar q == q.
Proof.
  intros [z Hz]. rewrite (roundToDollar_proper _ _ Hz), roundToDollar_whole.
  now symmetry.
Qed.

(** ** Scenario A *)

(** C1: for tax year 2025, filing status single and one W-2 with wages
    60000 and withholding 6000, the pipeline aggregates 60000 / 6000, deducts
    15000, and reports taxable income 45000, liability 5168, net -832, a
    refund, and refund amount 832. *)
Theorem scenario_A_single_2025 (getTime : string → option Z) (now : Z) :
  aggregateAllEntries getTime [scenarioA_w2] []
    = {| sumWages := 60000; sumWithheld := 6000 |} ∧
  getStandardDeduction STANDARD_DEDUCTIONS 2025 FILING_STATUSES.SINGLE
    = Return 15000 ∧
  (liability <$> calculateTaxLiability TAX_BRACKETS 45000 2025
                   FILING_STATUSES.SINGLE) = Return 5168 ∧
  ∃ r : Results,
    calculateFromSession getTime STANDARD_DEDUCTIONS TAX_BRACKETS now
      2025 FILING_STATUSES.SINGLE [scenarioA_w2] [] = Return r ∧
    taxableIncome r = 45000 ∧
    taxLiability r = 5168 ∧
    netDueRefund r = -832 ∧
    isRefund r = true ∧
    refundAmount r = 832.
Proof.
  repeat split; try (vm_compute; reflexivity).
  eexists. repeat split; vm_compute; reflexivity.
Qed.

(** ** The schedule provider and its errors *)

(** C10: when the taxable income is zero or negative, [calculateTaxLiability]
    returns liability 0 and an empty breakdown for every table, year and
    filing status; the bracket table is not consulted, so a pair that is
    absent from it raises nothing. *)
Theorem no_income_no_tax (table : BracketTable) (taxableIncome : Q)
    (taxYear : Z) (filingStatus : string) :
  taxableIncome <= 0 →
  calculateTaxLiability table taxableIncome taxYear filingStatus
    = Return {| liability := 0; bracketBreakdown := [] |}.
Proof.
  intros H. unfold calculateTaxLiability.
  now rewrite (proj2 (leb_le _ _) H).
Qed.

Lemma no_income_no_tax_witness :
  getTaxBrackets TAX_BRACKETS 1999 "head_of_household"
    = Throw (UnsupportedTaxYear 1999) ∧
  calculateTaxLiability TAX_BRACKETS (-5) 1999 "head_of_household"
    = Return {| liability := 0; bracketBreakdown := [] |}.
Proof.
  split; [vm_compute; reflexivity|].
  apply (no_income_no_tax TAX_BRACKETS (-5) 1999 "head_of_household").
  vm_compute. discriminate.
Defined.

(** ** Structure of the schedule is not inspected *)

Lemma Schedule_nonempty lo : ¬ Schedule lo [].
Proof. inversion 1. Qed.

(** C3, as stated, fails: an empty schedule, and one with a gap and no
    unbounded band, both yield a numeric liability for a positive income. *)
Lemma malformed_schedule_not_rejected :
  ¬ (∀ (table : BracketTable) (taxableIncome : Q) (taxYear : Z)
       (filingStatus : string) (brackets : list Bracket),
       getTaxBrackets table taxYear filingStatus = Return brackets →
       ¬ validSchedule brackets →
       ∃ e, calculateTaxLiability table taxableIncome taxYear filingStatus
              = Throw e).
Proof.
  intros Hclaim.
  destruct (Hclaim emptyScheduleTable 50000 2025%Z FILING_STATUSES.SINGLE [])
    as [e He].
  - vm_compute. reflexivity.
  - apply Schedule_nonempty.
  - vm_compute in He. discriminate.
Qed.

(** ** Optional numbers *)


(** ** Year-end projection *)


(** ** Year-to-date figures equal to zero *)

(** C6: the code departs from the claim when a year-to-date figure is
    present and equal to 0: [ytd || current || 0] then takes the
    current-period figure.  A single stub with year-to-date wages 0 and
    withholding 0, current wages 500 and current withholding 50, contributes
    500 and 50. *)
Theorem zero_ytd_replaced_by_current (getTime : string → option Z) :
  ytdTaxableWages zeroYtdStub = Some 0 ∧
  ytdFedWithheld zeroYtdStub = Some 0 ∧
  aggregatePaystubEntries getTime [zeroYtdStub]
    = {| sumWages := 500; sumWithheld := 50 |}.
Proof. repeat split; vm_compute; reflexivity. Qed.

(** ** The band walk *)



Ltac test_leb :=
  match goal with
  | |- context [leb ?a ?b] =>
      let H := fresh "Hle" in
      destruct (leb a b) eqn:H; [apply leb_le in H | apply leb_gt in H]
  end.

(** The loop pushes the roundings of the unrounded band values and adds the
    unrounded taxes to [totalTax]. *)
Lemma applyBrackets_bandIncomes T bs : ∀ tot rem acc,
  (applyBrackets T bs tot rem acc).2
    = acc ++ (reported <$> bandIncomes T bs rem) ∧
  (applyBrackets T bs tot rem acc).1
    == tot + sumQ (bandTax <$> bandIncomes T bs rem).
Proof.
  induction bs as [|b rest IH]; intros tot rem acc; simpl.
  - split; [now rewrite app_nil_r | lra].
  - test_leb; simpl.
    { split; [now rewrite app_nil_r | lra]. }
    assert (Hkeep : ∀ inc,
      (applyBrackets T rest (tot + inc * rate b) (rem - inc)
         (acc ++ [reported (b, inc)])).2
        = acc ++ reported (b, inc)
            :: (reported <$> bandIncomes T rest (rem - inc)) ∧
      (applyBrackets T rest (tot + inc * rate b) (rem - inc)
         (acc ++ [reported (b, inc)])).1
        == tot + (bandTax (b, inc)
                  + sumQ (bandTax <$> bandIncomes T rest (rem - inc)))).
    { intros inc. destruct (IH (tot + inc * rate b) (rem - inc)
                              (acc ++ [reported (b, inc)])) as [-> ->].
      split; [now rewrite <- app_assoc | unfold bandTax; simpl; lra]. }
    destruct (max b) as [hi|] eqn:Hmax.
    + test_leb; [apply IH|].
      test_leb; simpl; rewrite <- Hmax; apply Hkeep.
    + simpl. rewrite <- Hmax. apply Hkeep.
Qed.













Lemma roundToDollar_mono x y : x <= y → roundToDollar x <= roundToDollar y.
Proof.
  intros H. unfold roundToDollar, Math_round.
  rewrite <- Zle_Qle. apply Qfloor_resp_le. lra.
Qed.


Lemma isWhole_proper x y : x == y → isWhole x → isWhole y.
Proof. intros E [z Hz]. exists z. now rewrite <- E. Qed.

Lemma isWhole_minus x y : isWhole x → isWhole y → isWhole (x - y).
Proof.
  intros [a Ha] [b Hb]. exists (a - b)%Z.
  rewrite Ha, Hb. unfold Z.sub. rewrite inject_Z_plus, inject_Z_opp. reflexivity.
Qed.

Lemma single2025_valid : validSchedule single2025.
Proof.
  unfold validSchedule, single2025.
  repeat (eapply Schedule_band;
          [reflexivity | reflexivity | reflexivity | reflexivity | discriminate |]).
  apply Schedule_top; [reflexivity | reflexivity | reflexivity | discriminate].
Qed.

Lemma single2025_lookup :
  getTaxBrackets TAX_BRACKETS 2025 FILING_STATUSES.SINGLE = Return single2025.
Proof. vm_compute. reflexivity. Qed.

(** C2, as stated, fails on both counts, because each reported figure is
    rounded on its own.  With the 2025 single schedule, a taxable income of
    one half is reported as an income in band of 1, and a taxable income of 5
    owes 0.5 before rounding while the reported tax from band is 1. *)
Lemma reported_band_sums_differ :
  ¬ (∀ (table : BracketTable) (T : Q) (y : Z) (s : string)
       (bs : list Bracket) (l : Liability),
       getTaxBrackets table y s = Return bs → validSchedule bs → 0 <= T →
       calculateTaxLiability table T y s = Return l →
       sumQ (incomeInBracket <$> bracketBreakdown l) == T) ∧
  ¬ (∀ (table : BracketTable) (T : Q) (y : Z) (s : string)
       (bs : list Bracket) (l : Liability),
       getTaxBrackets table y s = Return bs → validSchedule bs → 0 <= T →
       calculateTaxLiability table T y s = Return l →
       sumQ (taxFromBracket <$> bracketBreakdown l)
         == (applyBrackets T bs 0 T []).1).
Proof.
  split; intros Hclaim.
  - specialize (Hclaim TAX_BRACKETS (1 # 2) 2025%Z FILING_STATUSES.SINGLE
                  single2025
                  {| liability := 0;
                     bracketBreakdown :=
                       [ {| br_rate := 0.10; br_min := 0;
                            br_max := Some 11600;
                            incomeInBracket := 1; taxFromBracket := 0 |} ] |}
                  single2025_lookup single2025_valid).
    assert (H : 1 + 0 == 1 # 2);
      [apply Hclaim; [discriminate | vm_compute; reflexivity] | discriminate].
  - specialize (Hclaim TAX_BRACKETS 5 2025%Z FILING_STATUSES.SINGLE
                  single2025
                  {| liability := 1;
                     bracketBreakdown :=
                       [ {| br_rate := 0.10; br_min := 0;
                            br_max := Some 11600;
                            incomeInBracket := 5; taxFromBracket := 1 |} ] |}
                  single2025_lookup single2025_valid).
    assert (H : 1 + 0 == (applyBrackets 5 single2025 0 5 []).1);
      [apply Hclaim; [discriminate | vm_compute; reflexivity]
      |vm_compute in H; discriminate].
Qed.




(** ** Rounding *)

Lemma roundToDollar_nearest x :
  isWhole (roundToDollar x) ∧
  x - (1 # 2) < roundToDollar x ∧ roundToDollar x <= x + (1 # 2).
Proof.
  unfold roundToDollar, Math_round.
  pose proof (Qfloor_le (x + (1 # 2))) as Hle.
  pose proof (Qlt_floor (x + (1 # 2))) as Hlt.
  rewrite inject_Z_plus in Hlt.
  split; [eexists; reflexivity|]. split; [|exact Hle].
  change (inject_Z 1) with 1 in Hlt. lra.
Qed.

Lemma roundHalfAwayFromZero_nonneg x :
  0 <= x → roundToDollar x = roundHalfAwayFromZero x.
Proof.
  intros H. unfold roundHalfAwayFromZero.
  now rewrite (proj2 (ltb_ge _ _) H).
Qed.

Lemma roundHalfAwayFromZero_whole x :
  isWhole x → roundToDollar x = roundHalfAwayFromZero x.
Proof.
  intros [z Hz]. unfold roundHalfAwayFromZero.
  destruct (ltb x 0) eqn:Hneg; [|reflexivity].
  rewrite (roundToDollar_proper _ _ Hz), roundToDollar_whole.
  assert (E : - x + (1 # 2) == inject_Z (- z) + (1 # 2)).
  { rewrite Hz, inject_Z_opp. reflexivity. }
  rewrite (Qfloor_comp _ _ E).
  pose proof (roundToDollar_whole (- z)) as Hr.
  unfold roundToDollar, Math_round in Hr.
  assert (Hf : Qfloor (inject_Z (- z) + (1 # 2)) = (- z)%Z)
    by (apply inject_Z_injective; now rewrite Hr).
  rewrite Hf, inject_Z_opp.
  unfold inject_Z, Qopp; simpl. now rewrite Z.opp_involutive.
Qed.

Lemma liability_isWhole table T y s l :
  calculateTaxLiability table T y s = Return l → isWhole (liability l).
Proof.
  unfold calculateTaxLiability. test_leb.
  - intros [= <-]. exists 0%Z. reflexivity.
  - destruct (getTaxBrackets table y s) as [bs|e]; simpl; [|discriminate].
    destruct (applyBrackets T bs 0 T []) as [tot bd].
    intros [= <-]. simpl. eexists; reflexivity.
Qed.

(** C5, as stated, fails for a negative tie: with nothing owed and half a
    dollar withheld the net is -0.5, which is reported as 0, where rounding
    half away from zero gives -1. *)
Lemma negative_tie_rounds_toward_zero :
  ∃ (r : Results) (l : Liability),
    calculateTaxLiability TAX_BRACKETS 0 2025 FILING_STATUSES.SINGLE
      = Return l ∧
    calculateTaxEstimate TAX_BRACKETS 0 halfDollarInputs = Return r ∧
    netDueRefund r = 0 ∧
    roundHalfAwayFromZero (liability l - (1 # 2)) = -1 ∧
    ¬ netDueRefund r == roundHalfAwayFromZero (liability l - (1 # 2)).
Proof.
  do 2 eexists. split; [vm_compute; reflexivity|].
  split; [vm_compute; reflexivity|]. simpl.
  split; [vm_compute; reflexivity|].
  split; [vm_compute; reflexivity|].
  vm_compute. discriminate.
Qed.

(** ** More on rounding *)

Lemma roundToDollar_idempotent x :
  roundToDollar (roundToDollar x) = roundToDollar x.
Proof. unfold roundToDollar at 2 3. apply roundToDollar_whole. Qed.


(** ** Lookups in the shipped tables *)

Lemma tableEntry_shipped {A} (s1 s2 s3 s4 : A) y s :
  tableEntry
    (A := A)
    {[ 2025%Z := {[ FILING_STATUSES.SINGLE := s1;
                    FILING_STATUSES.MARRIED_FILING_JOINTLY := s2 ]};
       2026%Z := {[ FILING_STATUSES.SINGLE := s3;
                    FILING_STATUSES.MARRIED_FILING_JOINTLY := s4 ]} ]} y s
  = if decide (y = 2025%Z) then
      if decide (s = FILING_STATUSES.SINGLE) then Some s1
      else if decide (s = FILING_STATUSES.MARRIED_FILING_JOINTLY) then Some s2
      else None
    else if decide (y = 2026%Z) then
      if decide (s = FILING_STATUSES.SINGLE) then Some s3
      else if decide (s = FILING_STATUSES.MARRIED_FILING_JOINTLY) then Some s4
      else None
    else None.
Proof.
  unfold tableEntry.
  repeat case_decide; simplify_map_eq; try done.
Qed.

Lemma supported_pair y s :
  isSupportedTaxYear y && isSupportedFilingStatus s = true
  ↔ (y = 2025%Z ∨ y = 2026%Z) ∧
    (s = FILING_STATUSES.SINGLE ∨ s = FILING_STATUSES.MARRIED_FILING_JOINTLY).
Proof.
  unfold isSupportedTaxYear, isSupportedFilingStatus, SUPPORTED_TAX_YEARS.
  rewrite andb_true_iff, !bool_decide_eq_true.
  rewrite !elem_of_cons, !elem_of_nil. tauto.
Qed.

Ltac valid_schedule :=
  unfold validSchedule;
  repeat (eapply Schedule_band;
          [reflexivity | reflexivity | reflexivity | reflexivity | discriminate |]);
  apply Schedule_top; [reflexivity | reflexivity | reflexivity | discriminate].

Ltac whole_bounds :=
  repeat constructor; simpl; try done; eexists; reflexivity.

(** ** Closed form of the band walk *)






Lemma Bracket_eta b : {| rate := rate b; min := min b; max := max b |} = b.
Proof. now destruct b. Qed.

Lemma bandIncomes_sublist T bs : ∀ rem,
  sublist (bandIncomes T bs rem).*1 bs.
Proof.
  induction bs as [|b rest IH]; intros rem; simpl; [constructor|].
  test_leb; [apply sublist_nil_l|].
  destruct (max b) as [hi|].
  - test_leb; [apply sublist_cons, IH|].
    test_leb; simpl; apply sublist_skip, IH.
  - simpl. apply sublist_skip, IH.
Qed.

(** ** The estimate in terms of the liability *)


Lemma calculateTaxEstimate_spec table now inputs :
  calculateTaxEstimate table now inputs
  = estimateOf now inputs
      <$> calculateTaxLiability table
            (Qmax 0 (in_totalWages inputs - in_standardDeduction inputs))
            (in_taxYear inputs) (in_filingStatus inputs).
Proof.
  unfold calculateTaxEstimate.
  now destruct (calculateTaxLiability table _ _ _).
Qed.

Lemma calculateTaxEstimate_Return table now inputs r :
  calculateTaxEstimate table now inputs = Return r →
  ∃ l, calculateTaxLiability table
         (Qmax 0 (in_totalWages inputs - in_standardDeduction inputs))
         (in_taxYear inputs) (in_filingStatus inputs) = Return l ∧
       r = estimateOf now inputs l.
Proof.
  rewrite calculateTaxEstimate_spec.
  destruct (calculateTaxLiability table _ _ _) as [l|e]; [|discriminate].
  intros H. exists l. split; [done|].
  apply (f_equal (fun x => match x with Return a => a | Throw _ => r end)) in H.
  now symmetry.
Qed.


(** ** Bounds on the liability and shape of the breakdown *)





(** X7: for any schedule, valid or not, the bands reported in
    the breakdown are bands of the schedule, in the order of the schedule and
    each at most once; the breakdown is never longer than the schedule. *)
Theorem breakdown_follows_schedule (table : BracketTable) (taxYear : Z)
    (filingStatus : string) (brackets : list Bracket) (taxableIncome : Q)
    (l : Liability) :
  getTaxBrackets table taxYear filingStatus = Return brackets →
  calculateTaxLiability table taxableIncome taxYear filingStatus = Return l →
  sublist (bandOf <$> bracketBreakdown l) brackets ∧
  (length (bracketBreakdown l) <= length brackets)%nat.
Proof.
  intros Hget Hl.
  assert (Hsub : sublist (bandOf <$> bracketBreakdown l) brackets).
  { revert Hl. unfold calculateTaxLiability. rewrite Hget. simpl. test_leb.
    - intros Hl.
      apply (f_equal (fun x => match x with Return a => a | Throw _ => l end))
        in Hl. subst l. simpl. apply sublist_nil_l.
    - destruct (applyBrackets_bandIncomes taxableIncome brackets 0
                  taxableIncome []) as [Hbd _].
      destruct (applyBrackets taxableIncome brackets 0 taxableIncome [])
        as [tot bd]. simpl in Hbd. intros Hl.
      apply (f_equal (fun x => match x with Return a => a | Throw _ => l end))
        in Hl. subst l bd. simpl.
      rewrite <- list_fmap_compose.
      erewrite list_fmap_ext; [apply bandIncomes_sublist|].
      intros i [b x] _. simpl. apply Bracket_eta. }
  split; [done|].
  apply sublist_length in Hsub. now rewrite length_fmap in Hsub.
Qed.

Lemma breakdown_follows_schedule_witness :
  sublist
    (bandOf <$> [ contribution 2000 {| rate := 0.10; min := 0; max := Some 100 |};
                  contribution 2000 {| rate := 0.20; min := 500; max := Some 1000 |} ])
    gappedSchedule.
Proof.
  apply (breakdown_follows_schedule gappedScheduleTable 2025
           FILING_STATUSES.SINGLE gappedSchedule 2000
           {| liability := 110;
              bracketBreakdown :=
                [ contribution 2000 {| rate := 0.10; min := 0; max := Some 100 |};
                  contribution 2000 {| rate := 0.20; min := 500; max := Some 1000 |} ] |});
    vm_compute; reflexivity.
Defined.

(** ** Refund and amount due *)






(** ** Totals and the complete workflow *)

Lemma isWhole_roundToDollar x : isWhole (roundToDollar x).
Proof. eexists. reflexivity. Qed.

Lemma isWhole_0 : isWhole 0.
Proof. exists 0%Z. reflexivity. Qed.

Lemma isWhole_max x y : isWhole x → isWhole y → isWhole (Qmax x y).
Proof.
  intros Hx Hy. destruct (Q.max_spec x y) as [[_ E]|[_ E]];
    eapply isWhole_proper; try (symmetry; exact E); assumption.
Qed.

Lemma isWhole_abs x : isWhole x → isWhole (Qabs x).
Proof.
  intros [a Ha]. exists (Z.abs a). rewrite Ha. reflexivity.
Qed.

Lemma calculateFromSession_Return getTime deductions brackets now y s w p r :
  calculateFromSession getTime deductions brackets now y s w p = Return r →
  ∃ a l,
    getStandardDeduction deductions y s = Return a ∧
    let totals := aggregateAllEntries getTime w p in
    let inputs := {| in_totalWages := sumWages totals;
                     in_totalWithheld := sumWithheld totals;
                     in_standardDeduction := a;
                     in_filingStatus := s;
                     in_taxYear := y |} in
    calculateTaxLiability brackets (Qmax 0 (sumWages totals - a)) y s
      = Return l ∧
    r = estimateOf now inputs l.
Proof.
  unfold calculateFromSession.
  destruct (getStandardDeduction deductions y s) as [a|e]; [|discriminate].
  unfold mbind, Result_bind.
  intros (l & Hl & ->)%calculateTaxEstimate_Return.
  exists a, l. split; [done|]. split; [exact Hl | reflexivity].
Qed.

(** X11: when calculateFromSession returns and the standard
    deduction is a whole number, the result carries the aggregated totals,
    the deduction of the pair, taxableIncome = max 0 (totalWages -
    standardDeduction), netDueRefund = taxLiability - totalWithheld and
    amountDue - refundAmount = netDueRefund, one of the two being 0. *)
Theorem session_figures_consistent (getTime : string → option Z)
    (deductions : DeductionTable) (brackets : BracketTable) (now : Z)
    (taxYear : Z) (filingStatus : string)
    (w2Entries : list W2Entry) (paystubEntries : list PaystubEntry)
    (a : Q) (r : Results) :
  getStandardDeduction deductions taxYear filingStatus = Return a →
  isWhole a →
  calculateFromSession getTime deductions brackets now taxYear filingStatus
    w2Entries paystubEntries = Return r →
  totalWages r
    = sumWages (aggregateAllEntries getTime w2Entries paystubEntries) ∧
  totalWithheld r
    = sumWithheld (aggregateAllEntries getTime w2Entries paystubEntries) ∧
  standardDeduction r == a ∧
  taxableIncome r == Qmax 0 (totalWages r - standardDeduction r) ∧
  netDueRefund r == taxLiability r - totalWithheld r ∧
  amountDue r - refundAmount r == netDueRefund r ∧
  (refundAmount r == 0 ∨ amountDue r == 0).
Proof.
  intros Ha Hwhole (a' & l & Ha' & Hl & ->)%calculateFromSession_Return.
  rewrite Ha in Ha'. injection Ha' as <-.
  pose proof (liability_isWhole _ _ _ _ _ Hl) as Hliab.
  unfold estimateOf.
  cbn [totalWages totalWithheld standardDeduction taxableIncome taxLiability
       netDueRefund refundAmount amountDue
       in_totalWages in_totalWithheld in_standardDeduction].
  set (totals := aggregateAllEntries getTime w2Entries paystubEntries) in *.
  assert (HW : isWhole (sumWages totals)) by apply isWhole_roundToDollar.
  assert (HH : isWhole (sumWithheld totals)) by apply isWhole_roundToDollar.
  split; [apply roundToDollar_idempotent|].
  split; [apply roundToDollar_idempotent|].
  set (W := sumWages totals) in *. set (H := sumWithheld totals) in *.
  clearbody W H.
  pose proof (roundToDollar_isWhole W HW) as EW.
  pose proof (roundToDollar_isWhole H HH) as EH.
  pose proof (roundToDollar_isWhole a Hwhole) as Ea.
  pose proof (roundToDollar_isWhole _ Hliab) as El.
  assert (Hnet : isWhole (liability l - H)) by now apply isWhole_minus.
  pose proof (roundToDollar_isWhole _ Hnet) as En.
  assert (HT : isWhole (Qmax 0 (W - a)))
    by (apply isWhole_max; [apply isWhole_0 | now apply isWhole_minus]).
  pose proof (roundToDollar_isWhole _ HT) as ET.
  split; [exact Ea|].
  split; [rewrite ET, EW, Ea; reflexivity|].
  split; [rewrite En, El, EH; reflexivity|].
  set (net := liability l - H) in *. clearbody net.
  destruct (ltb net 0) eqn:Hneg; cbn [negb].
  - apply ltb_lt in Hneg.
    rewrite (roundToDollar_isWhole _ (isWhole_abs _ Hnet)), En.
    change (roundToDollar 0) with 0.
    rewrite Qabs_neg by lra. split; [lra | right; reflexivity].
  - apply ltb_ge in Hneg. rewrite En. change (roundToDollar 0) with 0.
    split; [lra | left; reflexivity].
Qed.

Lemma session_figures_consistent_witness :
  ∃ r : Results,
    calculateFromSession (fun _ => None) STANDARD_DEDUCTIONS TAX_BRACKETS 0
      2025 FILING_STATUSES.SINGLE [scenarioA_w2] [] = Return r ∧
    netDueRefund r == taxLiability r - totalWithheld r.
Proof.
  assert (H : calculateFromSession (fun _ => None) STANDARD_DEDUCTIONS
                TAX_BRACKETS 0 2025 FILING_STATUSES.SINGLE [scenarioA_w2] []
              = Return
                  (estimateOf 0
                     {| in_totalWages := 60000; in_totalWithheld := 6000;
                        in_standardDeduction := 15000;
                        in_filingStatus := FILING_STATUSES.SINGLE;
                        in_taxYear := 2025 |}
                     {| liability := 5168;
                        bracketBreakdown :=
                          contribution 45000
                            <$> filter (reached 45000) single2025 |}))
    by (vm_compute; reflexivity).
  eexists. split; [exact H|].
  apply (session_figures_consistent (fun _ => None) STANDARD_DEDUCTIONS
           TAX_BRACKETS 0 2025 FILING_STATUSES.SINGLE [scenarioA_w2] []
           15000 _);
    [vm_compute; reflexivity | exists 15000%Z; reflexivity | exact H].
Defined.

(** ** Validation of the year and the status *)

Lemma validateTaxYear_valid y :
  isValid (validateTaxYear y) = true
  ↔ ∃ z, y = Some z ∧ isSupportedTaxYear z = true.
Proof.
  unfold validateTaxYear. cbn [isValid]. destruct y as [z|]; [|split].
  - destruct (decide (z = 0%Z)) as [->|Hz].
    + split; [discriminate | intros (z & [= <-] & H); discriminate].
    + destruct (isSupportedTaxYear z) eqn:Hs; cbn [negb].
      * split; [eauto | reflexivity].
      * split; [discriminate | intros (z' & [= <-] & H); congruence].
  - discriminate.
  - intros (z & ? & _). discriminate.
Qed.

Lemma validateFilingStatus_valid s :
  isValid (validateFilingStatus s) = true
  ↔ ∃ x, s = Some x ∧ isSupportedFilingStatus x = true.
Proof.
  unfold validateFilingStatus. cbn [isValid].
  destruct s as [[|a x]|].
  - split; [discriminate | intros (x & [= <-] & H); discriminate].
  - destruct (isSupportedFilingStatus (String.String a x)) eqn:Hs; cbn [negb].
    + split; [eauto | reflexivity].
    + split; [discriminate | intros (x' & [= <-] & H); congruence].
  - split; [discriminate | intros (x & ? & _); discriminate].
Qed.

Lemma isSupportedTaxYear_years z :
  isSupportedTaxYear z = true ↔ (z = 2025 ∨ z = 2026)%Z.
Proof.
  unfold isSupportedTaxYear, SUPPORTED_TAX_YEARS.
  rewrite bool_decide_eq_true, !elem_of_cons, elem_of_nil. tauto.
Qed.

Lemma isSupportedFilingStatus_statuses s :
  isSupportedFilingStatus s = true
  ↔ s = FILING_STATUSES.SINGLE ∨ s = FILING_STATUSES.MARRIED_FILING_JOINTLY.
Proof.
  unfold isSupportedFilingStatus.
  rewrite bool_decide_eq_true, !elem_of_cons, elem_of_nil. tauto.
Qed.

(** X12: validateTaxYear accepts exactly 2025 and 2026,
    validateFilingStatus exactly the two supported statuses and
    validateInputMode exactly w2_only, paystub_only and mixed; a year of 0
    and an empty status are reported as missing, not as unsupported. *)
Theorem validators_accept_supported :
  (∀ y, isValid (validateTaxYear y) = true
        ↔ ∃ z, y = Some z ∧ (z = 2025 ∨ z = 2026)%Z) ∧
  (∀ s, isValid (validateFilingStatus s) = true
        ↔ s = Some FILING_STATUSES.SINGLE ∨
          s = Some FILING_STATUSES.MARRIED_FILING_JOINTLY) ∧
  (∀ m, isValid (validateInputMode m) = true
        ↔ ∃ x, m = Some x ∧ x ∈ ["w2_only"; "paystub_only"; "mixed"]%string) ∧
  errors (validateTaxYear (Some 0%Z)) = ["Tax year is required"%string] ∧
  errors (validateTaxYear (Some 2024%Z))
    = ["Tax year 2024 is not supported. Please select 2025 or 2026."%string] ∧
  errors (validateFilingStatus (Some ""%string))
    = ["Filing status is required"%string].
Proof.
  split; [|split; [|split; [|repeat split; vm_compute; reflexivity]]].
  - intros y. rewrite validateTaxYear_valid. split.
    + intros (z & -> & Hz%isSupportedTaxYear_years). eauto.
    + intros (z & -> & Hz%isSupportedTaxYear_years). eauto.
  - intros s. rewrite validateFilingStatus_valid. split.
    + intros (x & -> & [-> | ->]%isSupportedFilingStatus_statuses); auto.
    + intros [-> | ->]; eexists; split; try reflexivity.
  - intros m. unfold validateInputMode. cbn [isValid].
    destruct m as [[|a x]|].
    + split; [discriminate|]. intros (x & [= <-] & H).
      repeat (apply elem_of_cons in H as [H|H]; [discriminate|]).
      now apply elem_of_nil in H.
    + destruct (bool_decide _) eqn:Hm; cbn [negb].
      * apply bool_decide_eq_true in Hm. split; [eauto | reflexivity].
      * apply bool_decide_eq_false in Hm.
        split; [discriminate | intros (x' & [= <-] & H); contradiction].
    + split; [discriminate | intros (x & ? & _); discriminate].
Qed.

(** ** Totals as sums *)

(** ** Bounds on the paystub totals, projection *)



(** ** Duplicate detection *)

Lemma prefix_refl s : String.prefix s s = true.
Proof.
  induction s as [|a s IH]; [reflexivity|]. simpl.
  now destruct (Ascii.ascii_dec a a).
Qed.

Lemma includes_refl s : includes s s = true.
Proof. destruct s; cbn [includes]; now rewrite prefix_refl. Qed.

Lemma calculateSimilarity_range str1 str2 :
  0 <= calculateSimilarity str1 str2 ∧ calculateSimilarity str1 str2 <= 1.
Proof.
  unfold calculateSimilarity.
  destruct str1 as [|a1 s1]; [split; compute; discriminate|].
  destruct str2 as [|a2 s2]; [split; compute; discriminate|].
  destruct (includes _ _ || includes _ _); [split; compute; discriminate|].
  set (words1 := splitWhitespace (String.String a1 s1)).
  set (words2 := splitWhitespace (String.String a2 s2)).
  set (common := length (filter _ words1)).
  assert (Hc : (common <= length words1)%nat) by apply length_filter.
  set (m := Nat.max (length words1) (length words2)).
  assert (Hm : (length words1 <= m)%nat) by apply Nat.le_max_l.
  destruct (0 <? m)%nat eqn:Hpos; [|split; compute; discriminate].
  apply Nat.ltb_lt in Hpos.
  assert (Hm0 : 0 < inject_Z (Z.of_nat m)).
  { change 0 with (inject_Z 0). rewrite <- Zlt_Qlt. lia. }
  split.
  - apply Qle_shift_div_l; [done|]. rewrite Qmult_0_l.
    change 0 with (inject_Z 0). rewrite <- Zle_Qle. lia.
  - apply Qle_shift_div_r; [done|]. rewrite Qmult_1_l.
    rewrite <- Zle_Qle. lia.
Qed.

Lemma calculateSimilarity_same s :
  s ≠ String.EmptyString → calculateSimilarity s s = 0.8.
Proof.
  intros Hs. unfold calculateSimilarity. destruct s as [|a s]; [done|].
  now rewrite includes_refl.
Qed.

Lemma duplicateMatches_elem w2s ps m :
  m ∈ duplicateMatches w2s ps
  ↔ match_w2 m ∈ w2s ∧ match_paystub m ∈ ps ∧
    normalizedLabel (w2_label (match_w2 m)) ≠ String.EmptyString ∧
    normalizedLabel (label (match_paystub m)) ≠ String.EmptyString ∧
    similarity m
      = calculateSimilarity (normalizedLabel (w2_label (match_w2 m)))
                            (normalizedLabel (label (match_paystub m))) ∧
    0.6 < similarity m.
Proof.
  unfold duplicateMatches. rewrite list_elem_of_bind. split.
  - intros (w & Hm & Hw). revert Hm.
    destruct (normalizedLabel (w2_label w)) as [|a1 l1] eqn:Hl1;
      [now intros ?%elem_of_nil|].
    rewrite list_elem_of_bind. intros (p & Hm & Hp). revert Hm.
    destruct (normalizedLabel (label p)) as [|a2 l2] eqn:Hl2;
      [now intros ?%elem_of_nil|].
    destruct (ltb 0.6 _) eqn:Hsim; [|now intros ?%elem_of_nil].
    intros ->%list_elem_of_singleton. cbn [match_w2 match_paystub similarity].
    rewrite Hl1, Hl2. apply ltb_lt in Hsim. done.
  - destruct m as [w p sim]. cbn [match_w2 match_paystub similarity].
    intros (Hw & Hp & Hl1 & Hl2 & -> & Hsim).
    exists w. split; [|done].
    destruct (normalizedLabel (w2_label w)) as [|a1 l1] eqn:E1; [done|].
    rewrite list_elem_of_bind. exists p. split; [|done].
    destruct (normalizedLabel (label p)) as [|a2 l2] eqn:E2; [done|].
    rewrite (proj2 (ltb_lt _ _) Hsim). now left.
Qed.

Lemma detectDuplicates_matches w2s ps :
  matches (detectDuplicates w2s ps) = duplicateMatches w2s ps.
Proof.
  assert (Hnil : ∀ ws, duplicateMatches ws [] = []).
  { intros ws. apply elem_of_nil_inv. intros m Hm.
    apply duplicateMatches_elem in Hm as (_ & H & _).
    now apply elem_of_nil in H. }
  unfold detectDuplicates.
  destruct w2s as [|w ws]; [reflexivity|].
  destruct ps as [|p ps]; [now rewrite Hnil|].
  destruct (duplicateMatches (w :: ws) (p :: ps)) as [|m ms]; reflexivity.
Qed.

Lemma detectDuplicates_flag w2s ps :
  hasPotentialDuplicates (detectDuplicates w2s ps) = true
  ↔ duplicateMatches w2s ps ≠ [].
Proof.
  pose proof (detectDuplicates_matches w2s ps) as Hm. revert Hm.
  unfold detectDuplicates.
  destruct w2s as [|w ws];
    [cbn [matches hasPotentialDuplicates]; intros <-; split; [discriminate|done]|].
  destruct ps as [|p ps];
    [cbn [matches hasPotentialDuplicates]; intros <-; split; [discriminate|done]|].
  destruct (duplicateMatches (w :: ws) (p :: ps)) as [|m ms];
    cbn [length Nat.ltb Nat.leb matches hasPotentialDuplicates];
    intros _; split; done.
Qed.

(** X18: detectDuplicates sets hasPotentialDuplicates exactly when
    it reports a match and exactly when it gives a warning message; every
    match pairs a W-2 entry and a paystub of the inputs whose normalized
    labels are not empty and whose similarity is above 0.6 and at most 1; a
    W-2 entry and a paystub with the same non-empty normalized label are
    always reported, with similarity 0.8. *)
Theorem duplicates_are_flagged (w2Entries : list W2Entry)
    (paystubEntries : list PaystubEntry) :
  let r := detectDuplicates w2Entries paystubEntries in
  (hasPotentialDuplicates r = true ↔ matches r ≠ []) ∧
  (hasPotentialDuplicates r = true ↔ is_Some (warningMessage r)) ∧
  (∀ m, m ∈ matches r →
     match_w2 m ∈ w2Entries ∧ match_paystub m ∈ paystubEntries ∧
     normalizedLabel (w2_label (match_w2 m)) ≠ String.EmptyString ∧
     normalizedLabel (label (match_paystub m)) ≠ String.EmptyString ∧
     0.6 < similarity m ∧ similarity m <= 1) ∧
  (∀ w p, w ∈ w2Entries → p ∈ paystubEntries →
     normalizedLabel (w2_label w) = normalizedLabel (label p) →
     normalizedLabel (w2_label w) ≠ String.EmptyString →
     hasPotentialDuplicates r = true ∧
     {| match_w2 := w; match_paystub := p; similarity := 0.8 |} ∈ matches r).
Proof.
  intros r. unfold r.
  split; [rewrite detectDuplicates_matches; apply detectDuplicates_flag|].
  split.
  { unfold detectDuplicates.
    destruct w2Entries as [|w ws]; [simpl; split; [discriminate|intros [? ?]; discriminate]|].
    destruct paystubEntries as [|p ps]; [simpl; split; [discriminate|intros [? ?]; discriminate]|].
    destruct (0 <? _)%nat; simpl; split; try discriminate; eauto.
    intros [? ?]; discriminate. }
  rewrite detectDuplicates_matches. split.
  - intros m (Hw & Hp & H1 & H2 & Hsim & Hgt)%duplicateMatches_elem.
    repeat split; try done. rewrite Hsim. apply calculateSimilarity_range.
  - intros w p Hw Hp Heq Hne.
    assert (Hin : {| match_w2 := w; match_paystub := p; similarity := 0.8 |}
                  ∈ duplicateMatches w2Entries paystubEntries).
    { apply duplicateMatches_elem. cbn [match_w2 match_paystub similarity].
      rewrite <- Heq. repeat split; try done.
      now rewrite calculateSimilarity_same. }
    split; [|exact Hin]. apply detectDuplicates_flag.
    intros E. rewrite E in Hin. now apply elem_of_nil in Hin.
Qed.

Lemma duplicates_are_flagged_witness :
  hasPotentialDuplicates (detectDuplicates [sampleW2] [janStub]) = true.
Proof.
  apply (duplicates_are_flagged [sampleW2] [janStub]) with (w := sampleW2)
    (p := janStub); [left | left | vm_compute; reflexivity | discriminate].
Defined.

(** X19: calculateSimilarity lies between 0 and 1; it is 0.8 when
    both strings are non-empty and one contains the other, and 0 when either
    string is empty. *)
Theorem similarity_range (str1 str2 : string) :
  0 <= calculateSimilarity str1 str2 ∧
  calculateSimilarity str1 str2 <= 1 ∧
  (includes str1 str2 = true ∨ includes str2 str1 = true →
   str1 ≠ String.EmptyString → str2 ≠ String.EmptyString →
   calculateSimilarity str1 str2 = 0.8) ∧
  calculateSimilarity str1 String.EmptyString = 0 ∧
  calculateSimilarity String.EmptyString str2 = 0.
Proof.
  destruct (calculateSimilarity_range str1 str2) as [H0 H1].
  split; [done|]. split; [done|]. split; [|split].
  - intros Hinc H1' H2'. unfold calculateSimilarity.
    destruct str1 as [|a1 s1]; [done|]. destruct str2 as [|a2 s2]; [done|].
    destruct Hinc as [-> | ->]; [reflexivity|].
    now rewrite orb_true_r.
  - now destruct str1.
  - reflexivity.
Qed.

Lemma similarity_range_witness :
  calculateSimilarity "acme corp" "acme" = 0.8.
Proof.
  apply (similarity_range "acme corp" "acme");
    [left; vm_compute; reflexivity | discriminate | discriminate].
Defined.

Local Open Scope Z_scope.

(** ** Whole numbers as doubles *)

Lemma digits2_pos_log2 p : Z.pos (digits2_pos p) = Z.log2 (Z.pos p) + 1.
Proof.
  induction p as [p IH|p IH|]; simpl digits2_pos; rewrite ?Pos2Z.inj_succ, ?IH.
  - change (Z.pos p~1) with (2 * Z.pos p + 1). rewrite Z.log2_succ_double by lia. lia.
  - change (Z.pos p~0) with (2 * Z.pos p). rewrite Z.log2_double by lia. lia.
  - reflexivity.
Qed.

Lemma digits2_pos_shift p k :
  0 <= k →
  Z.pos (digits2_pos (Z.to_pos (Z.pos p * 2 ^ k))) = Z.pos (digits2_pos p) + k.
Proof.
  intros Hk. rewrite !digits2_pos_log2, Z2Pos.id by nia.
  rewrite Z.log2_mul_pow2 by lia. lia.
Qed.

Lemma digits2_pos_bound p :
  Z.pos p < 2 ^ 53 → Z.pos (digits2_pos p) <= 53.
Proof.
  intros Hp. rewrite digits2_pos_log2.
  assert (Z.log2 (Z.pos p) < 53) by (apply Z.log2_lt_pow2; lia). lia.
Qed.

Lemma iter_xO p k : Z.pos (Pos.iter xO p k) = Z.pos p * 2 ^ Z.pos k.
Proof.
  revert p. induction k as [|k IH] using Pos.peano_ind; intros p.
  - simpl. lia.
  - rewrite Pos.iter_succ, Pos2Z.inj_succ, Z.pow_succ_r by lia.
    change (Z.pos (Pos.iter xO p k)~0) with (2 * Z.pos (Pos.iter xO p k)).
    rewrite IH. lia.
Qed.

Lemma fexp_eq k : fexp prec emax k = Z.max (k - 53) (-1074).
Proof. reflexivity. Qed.

Lemma binary_round_aux_canonical s m e :
  fexp prec emax (Z.pos (digits2_pos m) + e) = e → e <= 971 →
  binary_round_aux prec emax s (Z.pos m) e loc_Exact = S754_finite s m e.
Proof.
  intros Hc He. unfold binary_round_aux, shr_fexp.
  cbn [Zdigits2 shr_record_of_loc]. rewrite Hc, Z.sub_diag.
  cbn [shr shr_m loc_of_shr_record round_nearest_even Zdigits2 shr_record_of_loc].
  rewrite Hc, Z.sub_diag. cbn [shr shr_m].
  change (emax - prec) with 971.
  now rewrite (proj2 (Z.leb_le _ _) He).
Qed.

(** Shifting out bits that are all zero loses nothing. *)
Lemma iter_shr_1 (n : positive) : ∀ m, 0 <= m →
  SpecFloat.iter_pos shr_1 n
    {| shr_m := m * 2 ^ Z.pos n; shr_r := false; shr_s := false |}
  = {| shr_m := m; shr_r := false; shr_s := false |}.
Proof.
  assert (H1 : ∀ m, 0 <= m →
            shr_1 {| shr_m := m * 2; shr_r := false; shr_s := false |}
            = {| shr_m := m; shr_r := false; shr_s := false |}).
  { intros [|p|p] Hm; try lia; [reflexivity|].
    rewrite Z.mul_comm. reflexivity. }
  induction n as [n IH|n IH|]; intros m Hm; cbn [SpecFloat.iter_pos].
  - replace (m * 2 ^ Z.pos n~1) with (m * 2 ^ Z.pos n * 2 ^ Z.pos n * 2).
    + rewrite H1, !IH by nia. reflexivity.
    + replace (Z.pos n~1) with (Z.pos n + Z.pos n + 1) by lia.
      rewrite !Z.pow_add_r by lia. lia.
  - replace (m * 2 ^ Z.pos n~0) with (m * 2 ^ Z.pos n * 2 ^ Z.pos n).
    + rewrite !IH by nia. reflexivity.
    + replace (Z.pos n~0) with (Z.pos n + Z.pos n) by lia.
      rewrite !Z.pow_add_r by lia. lia.
  - apply H1, Hm.
Qed.

Lemma canonicalZ_valid s p :
  Z.pos p < 2 ^ 53 → valid_binary (Js.canonicalZ s p) = true.
Proof.
  intros Hd%digits2_pos_bound. unfold Js.canonicalZ.
  unfold SpecFloat.valid_binary, bounded, canonical_mantissa.
  rewrite fexp_eq, digits2_pos_shift by lia.
  apply andb_true_intro; (split; [apply Z.eqb_eq | apply Z.leb_le]);
    change (emax - prec) with 971; lia.
Qed.

(** Rounding a mantissa and an exponent that stand for a whole number of
    at most 53 bits gives its canonical form. *)
Lemma binary_round_aux_exact s M e c :
  Z.pos c < 2 ^ 53 → e <= 0 → Z.pos M = Z.pos c * 2 ^ (- e) →
  e <= Z.pos (digits2_pos c) - 53 →
  binary_round_aux prec emax s (Z.pos M) e loc_Exact = Js.canonicalZ s c.
Proof.
  intros Hc%digits2_pos_bound He HM Hn. unfold Js.canonicalZ.
  set (d := Z.pos (digits2_pos c)) in *.
  assert (HdM : Z.pos (digits2_pos M) = d - e).
  { replace M with (Z.to_pos (Z.pos c * 2 ^ (- e))) by (rewrite <- HM; done).
    rewrite digits2_pos_shift by lia. fold d. lia. }
  destruct (decide (e = d - 53)) as [->|Hne].
  - rewrite binary_round_aux_canonical.
    + f_equal. replace (53 - d) with (- (d - 53)) by lia.
      rewrite <- HM. done.
    + rewrite fexp_eq, HdM. lia.
    + lia.
  - unfold binary_round_aux, shr_fexp.
    cbn [Zdigits2 shr_record_of_loc]. rewrite fexp_eq, HdM.
    replace (Z.max (d - e + e - 53) (-1074) - e) with (d - 53 - e) by lia.
    destruct (d - 53 - e) as [|n|n] eqn:Hshift; try lia.
    cbn [shr]. rewrite HM.
    replace (Z.pos c * 2 ^ (- e))
      with (Z.pos c * 2 ^ (53 - d) * 2 ^ Z.pos n).
    2:{ rewrite <- Z.mul_assoc, <- Z.pow_add_r by lia. do 2 f_equal. lia. }
    rewrite iter_shr_1 by nia.
    cbn [shr_m loc_of_shr_record round_nearest_even].
    assert (Hpos : 0 < Z.pos c * 2 ^ (53 - d)) by nia.
    destruct (Z.pos c * 2 ^ (53 - d)) as [|q|q] eqn:Hq; try lia.
    cbn [Zdigits2 shr_record_of_loc].
    assert (Hdq : Z.pos (digits2_pos q) = 53).
    { replace q with (Z.to_pos (Z.pos c * 2 ^ (53 - d))) by (rewrite Hq; done).
      rewrite digits2_pos_shift by lia. fold d. lia. }
    rewrite fexp_eq, Hdq.
    replace (Z.max (53 + (e + Z.pos n) - 53) (-1074) - (e + Z.pos n)) with 0
      by lia.
    cbn [shr shr_m]. change (emax - prec) with 971.
    rewrite (proj2 (Z.leb_le (e + Z.pos n) 971)) by lia.
    f_equal. lia.
Qed.

Lemma binary_round_exact s M e c :
  Z.pos c < 2 ^ 53 → e <= 0 → Z.pos M = Z.pos c * 2 ^ (- e) →
  binary_round prec emax s M e = Js.canonicalZ s c.
Proof.
  intros Hc He HM. pose proof (digits2_pos_bound _ Hc) as Hd.
  set (d := Z.pos (digits2_pos c)) in *.
  assert (HdM : Z.pos (digits2_pos M) = d - e).
  { replace M with (Z.to_pos (Z.pos c * 2 ^ (- e))) by (rewrite <- HM; done).
    rewrite digits2_pos_shift by lia. fold d. lia. }
  unfold binary_round, shl_align. rewrite fexp_eq, HdM.
  replace (Z.max (d - e + e - 53) (-1074) - e) with (d - 53 - e) by lia.
  destruct (d - 53 - e) as [|n|n] eqn:Hshift.
  - apply binary_round_aux_exact; try done. fold d. lia.
  - apply binary_round_aux_exact; try done. fold d. lia.
  - apply binary_round_aux_exact; try done; [lia| |fold d; lia].
    rewrite iter_xO, HM, <- Z.mul_assoc, <- Z.pow_add_r by lia.
    do 2 f_equal. lia.
Qed.

Lemma binary_normalize_exact m e z :
  Z.abs z < 2 ^ 53 → e <= 0 → m = z * 2 ^ (- e) →
  binary_normalize prec emax m e false = Js.SFZ z.
Proof.
  intros Hz He ->. assert (0 < 2 ^ (- e)) by (apply Z.pow_pos_nonneg; lia).
  destruct z as [|p|p]; [reflexivity| |].
  - destruct (Z.pos p * 2 ^ (- e)) as [|q|q] eqn:Hq; try nia.
    simpl. apply binary_round_exact; [lia|done|lia].
  - destruct (Z.neg p * 2 ^ (- e)) as [|q|q] eqn:Hq; try nia.
    simpl. apply binary_round_exact; [lia|done|]. lia.
Qed.

Lemma Prim2SF_Z2F z : Z.abs z < 2 ^ 53 → Prim2SF (Js.Z2F z) = Js.SFZ z.
Proof.
  intros Hz. unfold Js.Z2F.
  rewrite (binary_normalize_exact z 0 z) by (try done; simpl; lia).
  apply Prim2SF_SF2Prim. destruct z; try done; apply canonicalZ_valid; lia.
Qed.

Lemma SFZ_exponent p :
  Z.pos p < 2 ^ 53 →
  ∃ m e, Js.canonicalZ false p = S754_finite false m e ∧ e <= 0 ∧
         Z.pos m = Z.pos p * 2 ^ (- e) ∧ e = Z.pos (digits2_pos p) - 53.
Proof.
  intros Hp%digits2_pos_bound. unfold Js.canonicalZ. do 2 eexists.
  split; [reflexivity|]. split; [lia|]. split; [|reflexivity].
  rewrite Z2Pos.id by nia. do 2 f_equal. lia.
Qed.

Lemma shl_align_value m e ez :
  ez <= e → Z.pos (shl_align m e ez).1 = Z.pos m * 2 ^ (e - ez).
Proof.
  intros He. unfold shl_align.
  destruct (ez - e) as [|d|d] eqn:Hd; try lia; cbn [fst].
  - replace (e - ez) with 0 by lia. lia.
  - rewrite iter_xO. do 2 f_equal. lia.
Qed.

Lemma aligned m e ez p :
  ez <= e → e <= 0 → Z.pos m = Z.pos p * 2 ^ (- e) →
  Z.pos (shl_align m e ez).1 = Z.pos p * 2 ^ (- ez).
Proof.
  intros H1 H2 Hm. rewrite shl_align_value, Hm by done.
  rewrite <- Z.mul_assoc, <- Z.pow_add_r by lia. do 2 f_equal. lia.
Qed.

(** Sums, differences and products of whole numbers below [2^53] are
    exact. *)
Lemma sub_Z2F a b :
  0 <= b <= a → a < 2 ^ 53 → (Js.Z2F a - Js.Z2F b)%float = Js.Z2F (a - b).
Proof.
  intros Hab Ha. apply Prim2SF_inj.
  rewrite sub_spec, !Prim2SF_Z2F by lia.
  destruct b as [|b|b]; try lia.
  { rewrite Z.sub_0_r. destruct a; try lia; reflexivity. }
  destruct a as [|a|a]; try lia. cbn [Js.SFZ].
  destruct (SFZ_exponent a) as (ma & ea & -> & Hea & Hma & _); [lia|].
  destruct (SFZ_exponent b) as (mb & eb & -> & Heb & Hmb & _); [lia|].
  unfold SF64sub, SFsub. cbn [cond_Zopp].
  apply binary_normalize_exact; [lia|lia|].
  rewrite (aligned ma ea _ a), (aligned mb eb _ b) by lia. lia.
Qed.



(** Comparisons of whole numbers. *)
Lemma SFcompare_SFZ a b :
  0 <= a < 2 ^ 53 → 0 <= b < 2 ^ 53 →
  SFcompare (Js.SFZ a) (Js.SFZ b) = Some (a ?= b).
Proof.
  intros Ha Hb.
  destruct a as [|a|a], b as [|b|b]; try lia; try reflexivity.
  cbn [Js.SFZ]. unfold Js.canonicalZ, SFcompare.
  pose proof (digits2_pos_bound a ltac:(lia)) as Hda.
  pose proof (digits2_pos_bound b ltac:(lia)) as Hdb.
  set (da := Z.pos (digits2_pos a)) in *.
  set (db := Z.pos (digits2_pos b)) in *.
  assert (Hlog : ∀ p q, Z.pos (digits2_pos p) < Z.pos (digits2_pos q) →
                        Z.pos p < Z.pos q).
  { intros p q. rewrite !digits2_pos_log2. intros Hpq.
    apply Z.log2_lt_cancel. lia. }
  f_equal. destruct (Z.compare_spec (da - 53) (db - 53)) as [E|E|E].
  - rewrite Pos.compare_cont_spec.
    assert (Hsw : ∀ c, Pos.switch_Eq Eq c = c) by now intros [].
    rewrite Hsw.
    replace db with da by lia.
    rewrite <- Z2Pos.inj_compare by nia.
    assert (0 < 2 ^ (53 - da)) by (apply Z.pow_pos_nonneg; lia).
    destruct (Z.compare_spec (Z.pos a) (Z.pos b));
      [apply Z.compare_eq_iff | apply Z.compare_lt_iff | apply Z.compare_gt_iff];
      nia.
  - symmetry. apply Z.compare_lt_iff, Hlog. fold da db. lia.
  - symmetry. apply Z.compare_gt_iff, Hlog. fold da db. lia.
Qed.

Lemma ltb_Z2F a b :
  0 <= a < 2 ^ 53 → 0 <= b < 2 ^ 53 →
  (Js.Z2F a <? Js.Z2F b)%float = (a <? b).
Proof.
  intros Ha Hb. rewrite FloatAxioms.ltb_spec, !Prim2SF_Z2F by lia.
  unfold SFltb. rewrite SFcompare_SFZ by done. unfold Z.ltb.
  now destruct (a ?= b).
Qed.

Lemma leb_Z2F a b :
  0 <= a < 2 ^ 53 → 0 <= b < 2 ^ 53 →
  (Js.Z2F a <=? Js.Z2F b)%float = (a <=? b).
Proof.
  intros Ha Hb. rewrite FloatAxioms.leb_spec, !Prim2SF_Z2F by lia.
  unfold SFleb. rewrite SFcompare_SFZ by done. unfold Z.leb.
  now destruct (a ?= b).
Qed.

Lemma eqb_Z2F a b :
  0 <= a < 2 ^ 53 → 0 <= b < 2 ^ 53 →
  (Js.Z2F a =? Js.Z2F b)%float = (a =? b).
Proof.
  intros Ha Hb. rewrite FloatAxioms.eqb_spec, !Prim2SF_Z2F by lia.
  unfold SFeqb. rewrite SFcompare_SFZ by done.
  destruct (Z.compare_spec a b) as [E|E|E]; symmetry;
    [apply Z.eqb_eq | apply Z.eqb_neq | apply Z.eqb_neq]; lia.
Qed.

Local Close Scope Z_scope.

(** ** The value of a double *)

Lemma Qpower_2_nonneg k : (0 <= k)%Z → Qpower 2 k == inject_Z (2 ^ k).
Proof. intros Hk. now rewrite Zpower_Qpower. Qed.

Lemma Qpower_2_neg k : (0 <= k)%Z → Qpower 2 (- k) == / inject_Z (2 ^ k).
Proof. intros Hk. now rewrite Qpower_opp, Qpower_2_nonneg. Qed.

Lemma cond_Zopp_mul s a b : (cond_Zopp s (a * b) = cond_Zopp s a * b)%Z.
Proof. destruct s; simpl; lia. Qed.

Lemma SF2Q_canonicalZ s p :
  (Z.pos p < 2 ^ 53)%Z →
  Js.SF2Q (Js.canonicalZ s p) == inject_Z (cond_Zopp s (Z.pos p)).
Proof.
  intros Hd%digits2_pos_bound. unfold Js.canonicalZ.
  set (d := Z.pos (digits2_pos p)) in *. cbn [Js.SF2Q].
  rewrite Z2Pos.id by nia.
  rewrite cond_Zopp_mul, inject_Z_mult.
  replace (d - 53)%Z with (- (53 - d))%Z by lia.
  rewrite (Qpower_2_neg (53 - d)) by lia.
  assert (0 < inject_Z (2 ^ (53 - d))).
  { change 0 with (inject_Z 0). rewrite <- Zlt_Qlt.
    apply Z.pow_pos_nonneg; lia. }
  field. lra.
Qed.

Lemma F2Q_Z2F z : (Z.abs z < 2 ^ 53)%Z → Js.F2Q (Js.Z2F z) == inject_Z z.
Proof.
  intros Hlt. unfold Js.F2Q. rewrite Prim2SF_Z2F by done.
  destruct z; [reflexivity| |]; cbn [Js.SFZ]; now rewrite SF2Q_canonicalZ by lia.
Qed.

Lemma isFinite_Z2F z : (Z.abs z < 2 ^ 53)%Z → Js.isFinite (Js.Z2F z) = true.
Proof.
  intros Hlt. unfold Js.isFinite. rewrite Prim2SF_Z2F by done. now destruct z.
Qed.

Lemma finite_bounds x s m e :
  Prim2SF x = S754_finite s m e →
  (Z.pos m < 2 ^ 53 ∧ -1074 <= e <= 971)%Z.
Proof.
  intros Hx. pose proof (Prim2SF_valid x) as Hv. rewrite Hx in Hv.
  unfold SpecFloat.valid_binary, bounded, canonical_mantissa in Hv.
  apply andb_prop in Hv as [Hc He].
  apply Z.eqb_eq in Hc. apply Z.leb_le in He.
  rewrite fexp_eq, digits2_pos_log2 in Hc.
  change (emax - prec)%Z with 971%Z in He.
  assert (Z.log2 (Z.pos m) < 53)%Z by lia.
  split; [|lia]. apply Z.log2_lt_pow2; lia.
Qed.

Lemma Qfloor_half a k :
  (0 <= k)%Z →
  Qfloor (inject_Z a * Qpower 2 (- k) + (1 # 2))
  = ((a * 2 + 2 ^ k) / 2 ^ (1 + k))%Z.
Proof.
  intros Hk. rewrite Zdiv_Qdiv. apply Qfloor_comp.
  rewrite Qpower_2_neg by done.
  rewrite Z.pow_add_r, Z.pow_1_r by lia.
  rewrite inject_Z_plus, !inject_Z_mult.
  assert (0 < inject_Z (2 ^ k)).
  { change 0 with (inject_Z 0). rewrite <- Zlt_Qlt. lia. }
  change (inject_Z 2) with 2. field. lra.
Qed.

(** [Math.round] on the value of a finite double: the whole number
    [floor(x + 1/2)], which is what [roundToDollar] on the rationals
    computes. *)
Lemma Math_round_finite x :
  Js.isFinite x = true →
  Js.isFinite (Js.Math_round x) = true ∧
  Js.F2Q (Js.Math_round x) == roundToDollar (Js.F2Q x).
Proof.
  unfold Js.isFinite, Js.Math_round, Js.F2Q.
  destruct (Prim2SF x) as [s0| | |s m e] eqn:Hx; try discriminate; intros _.
  - rewrite Hx. split; [done|]. reflexivity.
  - destruct (finite_bounds _ _ _ _ Hx) as [Hm He].
    destruct (0 <=? e)%Z eqn:Hpos.
    + apply Z.leb_le in Hpos. rewrite Hx. split; [done|]. cbn [Js.SF2Q].
      assert (E : inject_Z (cond_Zopp s (Z.pos m)) * Qpower 2 e
                  == inject_Z (cond_Zopp s (Z.pos m) * 2 ^ e)).
      { now rewrite Qpower_2_nonneg, <- inject_Z_mult. }
      rewrite (roundToDollar_proper _ _ E), roundToDollar_whole.
      now rewrite E.
    + apply Z.leb_gt in Hpos. cbn [Js.SF2Q]. unfold roundToDollar, Math_round.
      pose proof (Qfloor_half (cond_Zopp s (Z.pos m)) (- e)) as Hfl.
      rewrite Z.opp_involutive in Hfl. rewrite Hfl by lia. clear Hfl.
      replace (1 + - e)%Z with (1 - e)%Z by lia.
      set (n := ((cond_Zopp s (Z.pos m) * 2 + 2 ^ (- e)) / 2 ^ (1 - e))%Z).
      assert (Hn : (Z.abs n < 2 ^ 53)%Z).
      { assert (Hp : (0 < 2 ^ (- e))%Z) by (apply Z.pow_pos_nonneg; lia).
        assert (Hq : (2 ^ (1 - e) = 2 * 2 ^ (- e))%Z).
        { replace (1 - e)%Z with (1 + - e)%Z by lia.
          rewrite Z.pow_add_r by lia. lia. }
        assert (H2 : (2 <= 2 ^ (- e))%Z).
        { change 2%Z with (2 ^ 1)%Z at 1. apply Z.pow_le_mono_r; lia. }
        assert (Hlo : (- 2 ^ 52 <= n)%Z).
        { unfold n. apply Z.div_le_lower_bound; [lia|]. rewrite Hq.
          destruct s; simpl; nia. }
        assert (Hhi : (n <= 2 ^ 52)%Z).
        { unfold n. apply Z.lt_succ_r, Z.div_lt_upper_bound; [lia|].
          rewrite Hq. destruct s; simpl; nia. }
        lia. }
      destruct (n =? 0)%Z eqn:Hn0.
      * apply Z.eqb_eq in Hn0. rewrite Hn0.
        split; destruct s; reflexivity.
      * split; [now apply isFinite_Z2F|]. now apply F2Q_Z2F.
Qed.

Lemma Math_round_other x : Js.isFinite x = false → Js.Math_round x = x.
Proof.
  unfold Js.isFinite, Js.Math_round.
  now destruct (Prim2SF x).
Qed.

(** A whole number below [2^53] is its own rounding. *)
Lemma Math_round_Z2F z :
  (0 <= z < 2 ^ 53)%Z → Js.Math_round (Js.Z2F z) = Js.Z2F z.
Proof.
  intros Hz. unfold Js.Math_round. rewrite Prim2SF_Z2F by lia.
  destruct z as [|p|p]; [reflexivity| |lia]. cbn [Js.SFZ].
  pose proof (digits2_pos_bound p ltac:(lia)) as Hd.
  unfold Js.canonicalZ. set (d := Z.pos (digits2_pos p)) in *.
  destruct (0 <=? d - 53)%Z eqn:He; [reflexivity|].
  apply Z.leb_gt in He. cbn [cond_Zopp].
  rewrite Z2Pos.id by nia.
  replace (- (d - 53))%Z with (53 - d)%Z by lia.
  replace (1 - (d - 53))%Z with (1 + (53 - d))%Z by lia.
  rewrite Z.pow_add_r, Z.pow_1_r by lia.
  assert (Hp : (0 < 2 ^ (53 - d))%Z) by (apply Z.pow_pos_nonneg; lia).
  assert (E : ((Z.pos p * 2 ^ (53 - d) * 2 + 2 ^ (53 - d))
               / (2 * 2 ^ (53 - d)) = Z.pos p)%Z).
  { symmetry. apply (Z.div_unique _ _ _ (2 ^ (53 - d))); lia. }
  rewrite E. reflexivity.
Qed.

(** ** The band walk on doubles *)

Lemma Js_applyBrackets_bandIncomes T bs : ∀ tot rem acc,
  Js.applyBrackets T bs tot rem acc
  = (foldl (fun totalTax c => (totalTax + Js.bandTax c)%float) tot
       (Js.bandIncomes T bs rem),
     acc ++ (Js.reported <$> Js.bandIncomes T bs rem)).
Proof.
  induction bs as [|b rest IH]; intros tot rem acc;
    cbn [Js.applyBrackets Js.bandIncomes].
  { cbn. now rewrite app_nil_r. }
  destruct (rem <=? 0)%float; [cbn; now rewrite app_nil_r|].
  destruct (Js.max b) as [hi|] eqn:Hmax.
  - destruct (T <=? Js.min b)%float; [apply IH|].
    destruct (hi <=? T)%float; rewrite IH, <- app_assoc, <- Hmax; reflexivity.
  - rewrite IH, <- app_assoc, <- Hmax. reflexivity.
Qed.

Lemma Js_bandIncomes_spent T bs : Js.bandIncomes T bs 0 = [].
Proof. now destruct bs. Qed.

Lemma Js_calculateTaxLiability_own table T y s bs :
  Js.getTaxBrackets table y s = Js.Return (Js.Own bs) →
  (0 <=? T)%float = true →
  Js.calculateTaxLiability table T y s
  = Js.Return
      {| Js.liability := Js.roundToDollar (Js.totalOf (Js.bandIncomes T bs T));
         Js.bracketBreakdown := Js.reported <$> Js.bandIncomes T bs T |}.
Proof.
  intros Hget Hpos. unfold Js.calculateTaxLiability.
  destruct (T <=? 0)%float eqn:Hle.
  - (* T is a zero *)
    assert (HT : Js.bandIncomes T bs T = []).
    { destruct bs; [reflexivity|]. simpl. now rewrite Hle. }
    rewrite HT. reflexivity.
  - rewrite Hget. simpl. rewrite Js_applyBrackets_bandIncomes. reflexivity.
Qed.

(** ** Whole amounts *)

Lemma is_nan_Z2F a : (0 <= a < 2 ^ 53)%Z → is_nan (Js.Z2F a) = false.
Proof. intros Ha. unfold is_nan. rewrite eqb_Z2F by done. now rewrite Z.eqb_refl. Qed.

Lemma Math_min_Z2F a b :
  (0 <= a < 2 ^ 53)%Z → (0 <= b < 2 ^ 53)%Z →
  Js.Math_min (Js.Z2F a) (Js.Z2F b) = Js.Z2F (Z.min a b).
Proof.
  intros Ha Hb. unfold Js.Math_min.
  rewrite !is_nan_Z2F, !ltb_Z2F by done. simpl.
  destruct (Z.ltb_spec a b); [f_equal; lia|].
  destruct (Z.ltb_spec b a); [f_equal; lia|].
  assert (a = b) as -> by lia. rewrite Z.min_id.
  unfold is_zero. change zero with (Js.Z2F 0). rewrite eqb_Z2F by lia.
  destruct (Z.eqb_spec b 0) as [->|]; reflexivity.
Qed.

Lemma WholeSchedule_nonempty lo : ¬ Js.WholeSchedule lo [].
Proof. inversion 1. Qed.

(** With whole bounds and a whole income, the unrounded incomes of the
    bands are whole and add up to the part of the income above the lower
    bound of the first band. *)
Lemma whole_bandIncomes lo bs t :
  Js.WholeSchedule lo bs → (0 <= lo < t)%Z → (t < 2 ^ 53)%Z →
  ∃ zs : list Z,
    (Js.bandIncomes (Js.Z2F t) bs (Js.Z2F (t - lo))).*2 = Js.Z2F <$> zs ∧
    Forall (fun z => (0 <= z < 2 ^ 53)%Z) zs ∧
    foldr Z.add 0%Z zs = (t - lo)%Z.
Proof.
  intros Hs. revert t. induction Hs as [lo b Hmin Hmax|lo hi b rest Hmin Hmax Hhi Hrest IH];
    intros t Hlo Ht; cbn [Js.bandIncomes].
  - change 0%float with (Js.Z2F 0). rewrite leb_Z2F by lia.
    rewrite (proj2 (Z.leb_gt _ _)) by lia. rewrite Hmax.
    exists [(t - lo)%Z]. split; [reflexivity|].
    split; [constructor; [lia|constructor] | simpl; lia].
  - change 0%float with (Js.Z2F 0). rewrite leb_Z2F by lia.
    rewrite (proj2 (Z.leb_gt _ _)) by lia. rewrite Hmax, Hmin.
    rewrite !leb_Z2F by lia.
    rewrite (proj2 (Z.leb_gt t lo)) by lia.
    rewrite (sub_Z2F hi lo) by lia.
    destruct (Z.leb_spec hi t) as [Hle|Hgt].
    + rewrite Math_min_Z2F by lia.
      replace (Z.min (hi - lo) (t - lo)) with (hi - lo)%Z by lia.
      rewrite sub_Z2F by lia.
      replace (t - lo - (hi - lo))%Z with (t - hi)%Z by lia.
      destruct (decide (t = hi)) as [->|Hne].
      * rewrite Z.sub_diag. change (Js.Z2F 0) with 0%float.
        rewrite Js_bandIncomes_spent.
        exists [(hi - lo)%Z]. split; [reflexivity|].
        split; [constructor; [lia|constructor] | simpl; lia].
      * destruct (IH t) as (zs & Hzs & Hall & Hsum); [lia|lia|].
        exists ((hi - lo)%Z :: zs). split; [cbn; now rewrite Hzs|].
        split; [constructor; [lia|done] | simpl; lia].
    + rewrite sub_Z2F by lia. rewrite sub_Z2F by lia.
      rewrite Z.sub_diag. change (Js.Z2F 0) with 0%float.
      rewrite Js_bandIncomes_spent.
      exists [(t - lo)%Z]. split; [reflexivity|].
      split; [constructor; [lia|constructor] | simpl; lia].
Qed.

Lemma sumQ_Z2F zs :
  Forall (fun z => (0 <= z < 2 ^ 53)%Z) zs →
  sumQ (Js.F2Q <$> (Js.roundToDollar <$> (Js.Z2F <$> zs)))
  == inject_Z (foldr Z.add 0%Z zs).
Proof.
  induction 1 as [|z zs Hz _ IH]; [reflexivity|].
  cbn [fmap list_fmap foldr sumQ]. fold (sumQ (Js.F2Q <$> (Js.roundToDollar <$> (Js.Z2F <$> zs)))).
  unfold Js.roundToDollar at 1. rewrite Math_round_Z2F, F2Q_Z2F by lia.
  rewrite inject_Z_plus. unfold sumQ in IH |- *. rewrite IH. reflexivity.
Qed.

(** ** C2 *)

(** The reported incomes of a whole income on a whole schedule. *)
Lemma whole_incomes_reported bs t :
  Js.WholeSchedule 0 bs → (0 <= t < 2 ^ 53)%Z →
  let unrounded := Js.bandIncomes (Js.Z2F t) bs (Js.Z2F t) in
  Js.incomeInBracket <$> (Js.reported <$> unrounded) = unrounded.*2 ∧
  sumQ (Js.F2Q <$> (Js.incomeInBracket <$> (Js.reported <$> unrounded)))
  == inject_Z t.
Proof.
  intros Hvalid Ht unrounded. unfold unrounded.
  destruct (decide (t = 0%Z)) as [->|Hne].
  { change (Js.Z2F 0) with 0%float. rewrite Js_bandIncomes_spent.
    split; reflexivity. }
  destruct (whole_bandIncomes 0 bs t Hvalid) as (zs & Hzs & Hall & Hsum);
    [lia|lia|].
  rewrite Z.sub_0_r in Hzs, Hsum.
  assert (Hinc : Js.incomeInBracket
                   <$> (Js.reported <$> Js.bandIncomes (Js.Z2F t) bs (Js.Z2F t))
                 = Js.roundToDollar
                     <$> (Js.bandIncomes (Js.Z2F t) bs (Js.Z2F t)).*2).
  { rewrite <- !list_fmap_compose. reflexivity. }
  rewrite Hinc, Hzs. split.
  - clear Hzs Hsum Hinc. induction Hall as [|z zs Hz _ IH]; [reflexivity|].
    cbn [fmap list_fmap]. unfold Js.roundToDollar at 1.
    rewrite Math_round_Z2F by lia. f_equal. exact IH.
  - rewrite sumQ_Z2F by done. now rewrite Hsum.
Qed.

(** C2, amended: for a taxable income that is not negative and a schedule
    found in the table, [calculateTaxLiability] returns.  Each reported
    contribution carries [Math.round] of the unrounded income in band and
    [Math.round] of the unrounded tax from band (their product with the
    rate, in binary64), and the liability is [Math.round] of the unrounded
    taxes added in band order in binary64; it is not the sum of the
    reported taxes from band.  When the taxable income is a whole number
    below [2^53] and the schedule is contiguous from 0 with whole bounds and
    an unbounded last band, the reported incomes in band are the unrounded
    ones and add up to the taxable income exactly. *)
Theorem band_sums_in_doubles (table : Js.BracketTable) (taxableIncome : float)
    (taxYear : Z) (filingStatus : string) (brackets : list Js.Bracket) :
  Js.getTaxBrackets table taxYear filingStatus = Js.Return (Js.Own brackets) →
  (0 <=? taxableIncome)%float = true →
  ∃ l : Js.Liability,
    Js.calculateTaxLiability table taxableIncome taxYear filingStatus
      = Js.Return l ∧
    let unrounded := Js.bandIncomes taxableIncome brackets taxableIncome in
    Js.bracketBreakdown l = Js.reported <$> unrounded ∧
    Js.liability l = Js.roundToDollar (Js.totalOf unrounded) ∧
    (∀ t : Z,
       taxableIncome = Js.Z2F t → (0 <= t < 2 ^ 53)%Z →
       Js.WholeSchedule 0 brackets →
       Js.incomeInBracket <$> Js.bracketBreakdown l = unrounded.*2 ∧
       sumQ (Js.F2Q <$> (Js.incomeInBracket <$> Js.bracketBreakdown l))
       == inject_Z t).
Proof.
  intros Hget Hpos. eexists. split.
  { apply Js_calculateTaxLiability_own; eassumption. }
  cbn [Js.bracketBreakdown Js.liability].
  split; [reflexivity|]. split; [reflexivity|].
  intros t -> Ht Hvalid. now apply whole_incomes_reported.
Qed.

Lemma band_sums_in_doubles_witness :
  ∃ l : Js.Liability,
    Js.calculateTaxLiability Js.TAX_BRACKETS 243815 2025 FILING_STATUSES.SINGLE
      = Js.Return l ∧
    Js.taxFromBracket <$> Js.bracketBreakdown l
      = [1160; 4266; 11743; 21942; 16568; 31]%float ∧
    Js.liability l = 55710%float.
Proof.
  destruct (band_sums_in_doubles Js.TAX_BRACKETS 243815 2025
              FILING_STATUSES.SINGLE
              (default [] (tableEntry Js.TAX_BRACKETS 2025
                             FILING_STATUSES.SINGLE)))
    as (l & Hl & Hbd & Hliab & _);
    [vm_compute; reflexivity | vm_compute; reflexivity |].
  exists l. split; [exact Hl|]. rewrite Hbd, Hliab.
  split; vm_compute; reflexivity.
Defined.

(** ** C3 *)

Lemma Js_getTaxBrackets_own table y s :
  Js.Object_prototype s = None →
  Js.getTaxBrackets table y s
  = match table !! y with
    | None => Js.Throw (Js.UnsupportedTaxYear y)
    | Some byStatus =>
        match byStatus !! s with
        | None => Js.Throw (Js.UnsupportedFilingStatus s y)
        | Some bs => Js.Return (Js.Own bs)
        end
    end.
Proof.
  intros Hs. unfold Js.getTaxBrackets, Js.getProperty.
  destruct (table !! y) as [m|]; [|reflexivity].
  destruct (m !! s); [reflexivity|]. now rewrite Hs.
Qed.

Lemma Js_getTaxBrackets_entry table y s bs :
  tableEntry table y s = Some bs →
  Js.getTaxBrackets table y s = Js.Return (Js.Own bs).
Proof.
  unfold tableEntry, Js.getTaxBrackets, Js.getProperty.
  destruct (table !! y) as [m|]; simpl; [|discriminate].
  now intros ->.
Qed.

(** C3, amended: [calculateTaxLiability] never checks the structure of a
    schedule.  For a taxable income [<= 0] it returns liability 0 and no
    contribution.  For a filing status that is not the name of a property
    of [Object.prototype], it throws exactly when the taxable income is not
    [<= 0] and the table has no entry for the pair, and the error is the one
    thrown by [getTaxBrackets].  With an entry for the pair it always
    returns: liability 0 and no contribution for an empty schedule, and a
    numeric liability for a schedule with a gap and no unbounded band (110
    for an income of 2000 on the bands 0-100 at 10% and 500-1000 at
    20%). *)
Theorem liability_failures (table : Js.BracketTable) (taxableIncome : float)
    (taxYear : Z) (filingStatus : string) :
  ((taxableIncome <=? 0)%float = true →
   Js.calculateTaxLiability table taxableIncome taxYear filingStatus
   = Js.Return {| Js.liability := 0; Js.bracketBreakdown := [] |}) ∧
  (Js.Object_prototype filingStatus = None →
   ∀ e, Js.calculateTaxLiability table taxableIncome taxYear filingStatus
          = Js.Throw e
        ↔ (taxableIncome <=? 0)%float = false ∧
          tableEntry table taxYear filingStatus = None ∧
          Js.getTaxBrackets table taxYear filingStatus = Js.Throw e) ∧
  (∀ brackets, tableEntry table taxYear filingStatus = Some brackets →
     ∃ l, Js.calculateTaxLiability table taxableIncome taxYear filingStatus
            = Js.Return l) ∧
  (tableEntry table taxYear filingStatus = Some [] →
   Js.calculateTaxLiability table taxableIncome taxYear filingStatus
   = Js.Return {| Js.liability := 0; Js.bracketBreakdown := [] |}) ∧
  (Js.liability <$> Js.calculateTaxLiability Js.gappedScheduleTable 2000 2025
                      FILING_STATUSES.SINGLE) = Js.Return 110%float.
Proof.
  split; [|split; [|split; [|split]]].
  - intros Hle. unfold Js.calculateTaxLiability. now rewrite Hle.
  - intros Hs e. unfold Js.calculateTaxLiability.
    destruct (taxableIncome <=? 0)%float.
    { split; [discriminate | intros [? _]; discriminate]. }
    rewrite Js_getTaxBrackets_own by done. unfold tableEntry.
    destruct (table !! taxYear) as [m|]; simpl.
    + destruct (m !! filingStatus) as [bs|]; simpl.
      * destruct (Js.applyBrackets _ _ _ _ _).
        split; [discriminate | intros (_ & ? & _); discriminate].
      * split; [intros [= <-]; done | intros (_ & _ & [= <-]); done].
    + split; [intros [= <-]; done | intros (_ & _ & [= <-]); done].
  - intros bs Hbs%Js_getTaxBrackets_entry. unfold Js.calculateTaxLiability.
    destruct (taxableIncome <=? 0)%float; [eauto|].
    rewrite Hbs. simpl. destruct (Js.applyBrackets _ _ _ _ _). eauto.
  - intros Hbs%Js_getTaxBrackets_entry. unfold Js.calculateTaxLiability.
    destruct (taxableIncome <=? 0)%float; [reflexivity|].
    rewrite Hbs. reflexivity.
  - vm_compute. reflexivity.
Qed.

Lemma liability_failures_witness :
  Js.calculateTaxLiability Js.emptyScheduleTable 50000 2025
    FILING_STATUSES.SINGLE
  = Js.Return {| Js.liability := 0; Js.bracketBreakdown := [] |}.
Proof.
  apply (liability_failures Js.emptyScheduleTable 50000 2025
           FILING_STATUSES.SINGLE).
  vm_compute. reflexivity.
Defined.

(** ** C8 *)



(** The products and sums of the projection are those of the machine: one
    cent so far and three periods of 83 cents project to 2 dollars, where
    the exact sum, 2.50, would round to 3. *)
Lemma projection_of_cents :
  (0.01 + 0.83 * 3 = 2.4999999999999996)%float ∧
  Js.projectedWages (Js.projectYearEnd Js.centsStub 3) = 2%float.
Proof. split; vm_compute; reflexivity. Qed.

(** ** C7 *)

Lemma sub_nan x : (x - nan)%float = nan.
Proof.
  apply Prim2SF_inj. rewrite sub_spec.
  change (Prim2SF nan) with S754_nan.
  unfold SF64sub, SFsub. now destruct (Prim2SF x).
Qed.

Lemma Js_getStandardDeduction_missing table y s :
  Js.Object_prototype s = None → tableEntry table y s = None →
  ∃ e, Js.getStandardDeduction table y s = Js.Throw e.
Proof.
  intros Hs. unfold tableEntry, Js.getStandardDeduction, Js.getProperty.
  destruct (table !! y) as [m|]; simpl; [|eauto].
  intros ->. rewrite Hs. simpl. eauto.
Qed.

(** C7: the code departs from the claim for a filing status that names a
    property inherited from [Object.prototype].  Neither shipped table has
    an entry for (2025, toString), yet [calculateFromSession] returns a
    result for it: the inherited function is taken for the deduction and
    for the schedule, so the deduction and the taxable income are [NaN],
    the liability is 0 and the whole withholding of 6000 is refunded.  For
    every other filing status without an entry the call throws the error of
    [getStandardDeduction], as the claim says, provided the aggregation of
    the entries returns. *)
Theorem inherited_status_is_not_rejected (trim toLowerCase : string → string)
    (getTime : string → float)
    (sort : (Js.PaystubEntry → Js.PaystubEntry → float)
            → list Js.PaystubEntry → list Js.PaystubEntry)
    (now : Z) :
  (tableEntry Js.STANDARD_DEDUCTIONS 2025 "toString" = None ∧
   tableEntry Js.TAX_BRACKETS 2025 "toString" = None ∧
   ∃ r : Js.Results,
     Js.calculateFromSession trim toLowerCase getTime sort
       Js.STANDARD_DEDUCTIONS Js.TAX_BRACKETS now 2025 "toString"
       [Js.scenarioA_w2] []
     = Js.Return r ∧
     Js.totalWages r = 60000%float ∧
     Js.totalWithheld r = 6000%float ∧
     is_nan (Js.standardDeduction r) = true ∧
     is_nan (Js.taxableIncome r) = true ∧
     Js.taxLiability r = 0%float ∧
     Js.res_bracketBreakdown r = [] ∧
     Js.netDueRefund r = (-6000)%float ∧
     Js.isRefund r = true ∧
     Js.refundAmount r = 6000%float) ∧
  (∀ deductions brackets taxYear filingStatus w2Entries paystubEntries totals,
     Js.aggregateAllEntries trim toLowerCase getTime sort
       w2Entries paystubEntries = Js.Return totals →
     Js.Object_prototype filingStatus = None →
     tableEntry deductions taxYear filingStatus = None →
     ∃ e, Js.getStandardDeduction deductions taxYear filingStatus
            = Js.Throw e ∧
          Js.calculateFromSession trim toLowerCase getTime sort
            deductions brackets now
            taxYear filingStatus w2Entries paystubEntries = Js.Throw e).
Proof.
  split.
  - split; [vm_compute; reflexivity|]. split; [vm_compute; reflexivity|].
    eexists. split; [vm_compute; reflexivity|].
    repeat split; vm_compute; reflexivity.
  - intros deductions brackets y s w p totals Hagg Hs Hmiss.
    destruct (Js_getStandardDeduction_missing _ _ _ Hs Hmiss) as [e He].
    exists e. split; [exact He|].
    unfold Js.calculateFromSession. rewrite Hagg. simpl. now rewrite He.
Qed.

Lemma inherited_status_is_not_rejected_witness :
  ∃ e,
    Js.getStandardDeduction Js.STANDARD_DEDUCTIONS 2024 FILING_STATUSES.SINGLE
      = Js.Throw e ∧
    Js.calculateFromSession trim toLowerCase (fun _ => nan) Js.stableSort
      Js.STANDARD_DEDUCTIONS Js.TAX_BRACKETS 0 2024 FILING_STATUSES.SINGLE
      [Js.scenarioA_w2] [] = Js.Throw e.
Proof.
  eapply (inherited_status_is_not_rejected trim toLowerCase (fun _ => nan)
            Js.stableSort 0);
    vm_compute; reflexivity.
Defined.

(** ** C4 *)

Lemma insertSorted_perm {A} (cmp : A → A → float) x l :
  Js.insertSorted cmp x l ≡ₚ x :: l.
Proof.
  induction l as [|y l IH]; [reflexivity|]. simpl.
  destruct (Js.sortsBefore cmp x y); [reflexivity|].
  rewrite IH. apply Permutation_swap.
Qed.

Lemma stableSort_perm {A} (cmp : A → A → float) l : Js.stableSort cmp l ≡ₚ l.
Proof.
  induction l as [|x l IH]; [reflexivity|].
  unfold Js.stableSort in *. simpl. rewrite insertSorted_perm.
  now constructor.
Qed.

(** The stable sort by insertion is a sort the language allows. *)
Lemma stableSort_SortSpec {A} : Js.SortSpec (@Js.stableSort A).
Proof. split; [apply stableSort_perm | reflexivity]. Qed.

(** One group of two stubs filed under one key. *)
Lemma Js_groupByEmployer_pair (trim toLowerCase : string → string)
    (a b : Js.PaystubEntry) (key : string) :
  Js.employerKey trim toLowerCase a = key →
  Js.employerKey trim toLowerCase b = key →
  Js.Object_prototype key = None →
  Js.groupByEmployer trim toLowerCase [a; b] = Js.Return [(key, [a; b])].
Proof.
  intros Ha Hb Hkey. unfold Js.groupByEmployer. cbn [Js.groupInto].
  rewrite Ha, Hb. unfold Js.pushEntry at 2. cbn [Js.pushOwn]. rewrite Hkey.
  cbn [mbind Js.Result_bind app]. unfold Js.pushEntry. cbn [Js.pushOwn].
  now rewrite decide_True by done.
Qed.

Lemma Js_Object_values_single {A} (key : string) (v : A) :
  Js.arrayIndex key = None → Js.Object_values [(key, v)] = [v].
Proof.
  intros Hkey. unfold Js.Object_values. cbn [foldr filter list_filter fst].
  rewrite Hkey. rewrite decide_True by done. reflexivity.
Qed.

(** C4: the code departs from the claim in two places.  Of two stubs of
    one employer whose pay dates are present but are no dates and whose
    year-to-date wages are 100 and 200, the first of the input is selected
    and contributes 100 and 10: the comparator returns [NaN] for them, which
    the sort reads as a tie, and never falls back on the year-to-date
    wages, which would select 200 and 20.  Two stubs of one employer with
    the same year-to-date wages, 0, contribute 500 and 50, the
    current-period figures of the first one, not their common year-to-date
    figure once. *)
Theorem same_employer_selection_slips (trim toLowerCase : string → string)
    (getTime : string → float)
    (sort : (Js.PaystubEntry → Js.PaystubEntry → float)
            → list Js.PaystubEntry → list Js.PaystubEntry) :
  Js.SortSpec sort →
  toLowerCase (trim "Acme") = "acme"%string →
  getTime "TBD" = nan →
  Js.aggregatePaystubEntries trim toLowerCase getTime sort
    [Js.undatedLow; Js.undatedHigh]
    = Js.Return {| Js.sumWages := 100; Js.sumWithheld := 10 |} ∧
  Js.aggregatePaystubEntries trim toLowerCase getTime sort
    [Js.zeroYtdStub; Js.zeroYtdLater]
    = Js.Return {| Js.sumWages := 500; Js.sumWithheld := 50 |}.
Proof.
  intros [_ Hsort] Hlabel Hdate.
  assert (Hcmp : ∀ a b, a ∈ [Js.undatedLow; Js.undatedHigh] →
            b ∈ [Js.undatedLow; Js.undatedHigh] →
            Js.compareStubs getTime a b = nan).
  { intros a b Ha Hb.
    repeat (apply elem_of_cons in Ha as [->|Ha]);
      try (now apply elem_of_nil in Ha);
      repeat (apply elem_of_cons in Hb as [->|Hb]);
      try (now apply elem_of_nil in Hb);
      unfold Js.compareStubs; cbn [Js.payDate Js.undatedLow Js.undatedHigh];
      rewrite Hdate; reflexivity. }
  split.
  - unfold Js.aggregatePaystubEntries.
    rewrite (Js_groupByEmployer_pair _ _ _ _ "acme") by done.
    cbn [mbind Js.Result_bind].
    rewrite Js_Object_values_single by reflexivity.
    cbn [Js.addEmployers mbind Js.Result_bind]. unfold Js.addEmployer.
    rewrite Hsort.
    + unfold Js.stableSort. cbn [foldr Js.insertSorted].
      unfold Js.sortsBefore. rewrite Hcmp by set_solver.
      vm_compute. reflexivity.
    + unfold Js.consistent, Js.sign. cbn [forallb].
      rewrite !Hcmp by set_solver. vm_compute. reflexivity.
  - unfold Js.aggregatePaystubEntries.
    rewrite (Js_groupByEmployer_pair _ _ _ _ "acme") by done.
    cbn [mbind Js.Result_bind].
    rewrite Js_Object_values_single by reflexivity.
    cbn [Js.addEmployers mbind Js.Result_bind]. unfold Js.addEmployer.
    rewrite Hsort; vm_compute; reflexivity.
Qed.

Lemma same_employer_selection_slips_witness :
  Js.aggregatePaystubEntries trim toLowerCase (fun _ => nan) Js.stableSort
    [Js.undatedLow; Js.undatedHigh]
  = Js.Return {| Js.sumWages := 100; Js.sumWithheld := 10 |}.
Proof.
  apply (same_employer_selection_slips trim toLowerCase (fun _ => nan)
           Js.stableSort);
    [apply stableSort_SortSpec | reflexivity | reflexivity].
Defined.

(** ** Signs of doubles *)

Lemma ltb_zero_r x :
  (x <? 0)%float
  = match Prim2SF x with
    | S754_finite true _ _ | S754_infinity true => true
    | _ => false
    end.
Proof.
  rewrite FloatAxioms.ltb_spec. change (Prim2SF 0) with (S754_zero false).
  unfold SFltb, SFcompare. now destruct (Prim2SF x) as [[]|[]| |[] ? ?].
Qed.

Lemma ltb_zero_l x :
  (0 <? x)%float
  = match Prim2SF x with
    | S754_finite false _ _ | S754_infinity false => true
    | _ => false
    end.
Proof.
  rewrite FloatAxioms.ltb_spec. change (Prim2SF 0) with (S754_zero false).
  unfold SFltb, SFcompare. now destruct (Prim2SF x) as [[]|[]| |[] ? ?].
Qed.

Lemma is_nan_spec x :
  is_nan x = match Prim2SF x with S754_nan => true | _ => false end.
Proof.
  unfold is_nan. rewrite FloatAxioms.eqb_spec. unfold SFeqb, SFcompare.
  destruct (Prim2SF x) as [[]|[]| |[] m e]; try reflexivity;
    rewrite Z.compare_refl, Pos.compare_cont_refl; reflexivity.
Qed.

Lemma SF2Q_sign (s : bool) (m : positive) (e : Z) :
  if s then Js.SF2Q (S754_finite s m e) < 0
  else 0 < Js.SF2Q (S754_finite s m e).
Proof.
  cbn [Js.SF2Q]. pose proof (Qpower_0_lt 2 e ltac:(reflexivity)) as Hp.
  destruct s; cbn [cond_Zopp].
  - assert (inject_Z (- Z.pos m) < 0)
      by (change 0 with (inject_Z 0); rewrite <- Zlt_Qlt; lia).
    nra.
  - assert (0 < inject_Z (Z.pos m))
      by (change 0 with (inject_Z 0); rewrite <- Zlt_Qlt; lia).
    nra.
Qed.

Lemma not_negative x : (x <? 0)%float = false → 0 <= Js.F2Q x.
Proof.
  rewrite ltb_zero_r. unfold Js.F2Q.
  destruct (Prim2SF x) as [?|?| |[] m e]; try discriminate; intros _;
    try (cbn; lra).
  pose proof (SF2Q_sign false m e). simpl in *. lra.
Qed.

Lemma abs_not_negative x : 0 <= Js.F2Q (abs x).
Proof.
  unfold Js.F2Q. rewrite abs_spec.
  destruct (Prim2SF x) as [?|?| |s m e]; try (cbn; lra).
  pose proof (SF2Q_sign false m e). simpl in *. lra.
Qed.

Lemma Math_max_0_not_negative x : 0 <= Js.F2Q (Js.Math_max 0 x).
Proof.
  unfold Js.Math_max. change (is_nan 0) with false. cbn [orb].
  rewrite is_nan_spec, ltb_zero_l, ltb_zero_r.
  change (is_zero 0) with true.
  destruct (Prim2SF x) as [s|[]| |[] m e] eqn:Hx;
    try (cbn; lra); cbn match.
  - (* a zero *)
    unfold Js.F2Q. rewrite add_spec, Hx.
    change (Prim2SF 0) with (S754_zero false). destruct s; cbn; lra.
  - (* +infinity *) unfold Js.F2Q. rewrite Hx. cbn. lra.
  - unfold Js.F2Q. rewrite Hx. pose proof (SF2Q_sign false m e). simpl in *. lra.
Qed.

(** A finite rounded figure is a whole number. *)
Lemma roundToDollar_whole_value y :
  Js.isFinite (Js.roundToDollar y) = true →
  isWhole (Js.F2Q (Js.roundToDollar y)).
Proof.
  intros Hfin. destruct (Js.isFinite y) eqn:Hy.
  - destruct (Math_round_finite y Hy) as [_ E].
    unfold Js.roundToDollar. eapply isWhole_proper; [symmetry; exact E|].
    apply roundToDollar_nearest.
  - unfold Js.roundToDollar in Hfin. rewrite (Math_round_other y Hy) in Hfin.
    congruence.
Qed.

(** Where [Math.round] and rounding half away from zero agree. *)
Lemma roundToDollar_away x :
  Js.isFinite x = true →
  0 <= Js.F2Q x ∨ isWhole (Js.F2Q x) →
  Js.F2Q (Js.roundToDollar x) == roundHalfAwayFromZero (Js.F2Q x).
Proof.
  intros Hfin H. destruct (Math_round_finite x Hfin) as [_ E].
  unfold Js.roundToDollar. rewrite E.
  destruct H as [H|H];
    [now rewrite roundHalfAwayFromZero_nonneg
    |now rewrite roundHalfAwayFromZero_whole].
Qed.

Lemma Js_liability_rounded table T y s l :
  Js.calculateTaxLiability table T y s = Js.Return l →
  ∃ u, Js.liability l = Js.roundToDollar u.
Proof.
  unfold Js.calculateTaxLiability.
  destruct (T <=? 0)%float.
  { intros [= <-]. exists 0%float. reflexivity. }
  destruct (Js.getTaxBrackets table y s) as [[bs|[[|n]|]]|e]; simpl;
    try discriminate.
  - destruct (Js.applyBrackets _ _ _ _ _) as [tot bd]. intros [= <-].
    now exists tot.
  - intros [= <-]. now exists 0%float.
  - intros [= <-]. now exists 0%float.
Qed.

(** ** C5 *)

(** C5, amended: every reported figure is [Math.round] of the binary64
    value it reports.  On a finite value [Math.round] gives the whole number
    [floor (x + 1/2)]: it is within one half of the value, a tie going to
    the upper whole number; it agrees with rounding half away from zero on
    every value that is not negative and on every whole value.  A [NaN] or
    an infinity is reported as it is.  A negative tie goes toward zero:
    [-0.5] is reported as [-0], not as [-1].  The loop accumulates the
    unrounded taxes of the bands and rounds only what it reports.  In a
    result of [calculateTaxEstimate] each monetary field is [Math.round] of
    the corresponding unrounded value; for taxableIncome, taxLiability,
    refundAmount and amountDue, which are never negative or are whole, this
    is rounding half away from zero; for totalWages, totalWithheld,
    standardDeduction and netDueRefund it is so unless the value is negative
    and not whole: a net of [-0.5] is reported as [-0] with a refund of 1,
    and a withholding of [-0.5] is reported as [-0]. *)
Theorem figures_are_Math_round :
  (∀ x, Js.isFinite x = true →
     Js.isFinite (Js.roundToDollar x) = true ∧
     Js.F2Q (Js.roundToDollar x) == inject_Z (Qfloor (Js.F2Q x + (1 # 2))) ∧
     Js.F2Q x - (1 # 2) < Js.F2Q (Js.roundToDollar x) ∧
     Js.F2Q (Js.roundToDollar x) <= Js.F2Q x + (1 # 2) ∧
     (0 <= Js.F2Q x ∨ isWhole (Js.F2Q x) →
      Js.F2Q (Js.roundToDollar x) == roundHalfAwayFromZero (Js.F2Q x))) ∧
  (∀ x, Js.isFinite x = false → Js.roundToDollar x = x) ∧
  (Js.roundToDollar (-0.5) = (-0)%float ∧
   roundHalfAwayFromZero (Js.F2Q (-0.5)) == -1) ∧
  (∀ T bs,
     let unrounded := Js.bandIncomes T bs T in
     Js.applyBrackets T bs 0 T []
     = (Js.totalOf unrounded, Js.reported <$> unrounded)) ∧
  (∀ table now inputs r,
     Js.calculateTaxEstimate table now inputs = Js.Return r →
     let income :=
       Js.Math_max 0 (Js.in_totalWages inputs
                      - Js.in_standardDeduction inputs)%float in
     ∃ l : Js.Liability,
       Js.calculateTaxLiability table income
         (Js.in_taxYear inputs) (Js.in_filingStatus inputs) = Js.Return l ∧
       let net := (Js.liability l - Js.in_totalWithheld inputs)%float in
       let refund := if (net <? 0)%float then abs net else 0%float in
       let due := if (net <? 0)%float then 0%float else net in
       let away u :=
         Js.isFinite u = true →
         Js.F2Q (Js.roundToDollar u) == roundHalfAwayFromZero (Js.F2Q u) in
       let awayUnlessNegative u :=
         Js.isFinite u = true → 0 <= Js.F2Q u ∨ isWhole (Js.F2Q u) →
         Js.F2Q (Js.roundToDollar u) == roundHalfAwayFromZero (Js.F2Q u) in
       Js.totalWages r = Js.roundToDollar (Js.in_totalWages inputs) ∧
       Js.totalWithheld r = Js.roundToDollar (Js.in_totalWithheld inputs) ∧
       Js.standardDeduction r
         = Js.roundToDollar (Js.in_standardDeduction inputs) ∧
       Js.taxableIncome r = Js.roundToDollar income ∧
       Js.taxLiability r = Js.roundToDollar (Js.liability l) ∧
       Js.netDueRefund r = Js.roundToDollar net ∧
       Js.refundAmount r = Js.roundToDollar refund ∧
       Js.amountDue r = Js.roundToDollar due ∧
       away income ∧ away (Js.liability l) ∧ away refund ∧ away due ∧
       awayUnlessNegative (Js.in_totalWages inputs) ∧
       awayUnlessNegative (Js.in_totalWithheld inputs) ∧
       awayUnlessNegative (Js.in_standardDeduction inputs) ∧
       awayUnlessNegative net) ∧
  (∃ r, Js.calculateTaxEstimate Js.TAX_BRACKETS 0 Js.halfDollarInputs
          = Js.Return r ∧
        Js.netDueRefund r = (-0)%float ∧ Js.refundAmount r = 1%float) ∧
  (∃ r, Js.calculateTaxEstimate Js.TAX_BRACKETS 0 Js.negativeHalfInputs
          = Js.Return r ∧
        Js.totalWithheld r = (-0)%float ∧ Js.amountDue r = 1%float).
Proof.
  split; [|split; [|split; [|split; [|split; [|split]]]]].
  - intros x Hfin. destruct (Math_round_finite x Hfin) as [Hf E].
    destruct (roundToDollar_nearest (Js.F2Q x)) as (_ & Hlo & Hhi).
    unfold Js.roundToDollar.
    split; [exact Hf|]. split; [exact E|].
    split; [now rewrite E|]. split; [now rewrite E|].
    now apply roundToDollar_away.
  - apply Math_round_other.
  - split; [vm_compute; reflexivity | vm_compute; reflexivity].
  - intros T bs unrounded. rewrite Js_applyBrackets_bandIncomes. reflexivity.
  - intros table now inputs r. unfold Js.calculateTaxEstimate.
    set (income := Js.Math_max 0 _).
    destruct (Js.calculateTaxLiability table income _ _) as [l|e] eqn:Hl;
      cbn [mbind Js.Result_bind]; [|discriminate].
    intros Hr.
    apply (f_equal (fun x => match x with Js.Return a => a | Js.Throw _ => r end))
      in Hr.
    subst r. exists l. split; [reflexivity|].
    cbn [Js.totalWages Js.totalWithheld Js.standardDeduction Js.taxableIncome
           Js.taxLiability Js.netDueRefund Js.refundAmount Js.amountDue].
    set (net := (Js.liability l - Js.in_totalWithheld inputs)%float).
    repeat split; try reflexivity.
    + now destruct (net <? 0)%float.
    + intros Hfin. apply roundToDollar_away; [done|]. left.
      apply Math_max_0_not_negative.
    + intros Hfin. apply roundToDollar_away; [done|]. right.
      destruct (Js_liability_rounded _ _ _ _ _ Hl) as [u Hu].
      rewrite Hu in Hfin |- *. now apply roundToDollar_whole_value.
    + intros Hfin. apply roundToDollar_away; [done|]. left.
      destruct (net <? 0)%float; [apply abs_not_negative | cbn; lra].
    + intros Hfin. apply roundToDollar_away; [done|]. left.
      destruct (net <? 0)%float eqn:Hneg; [cbn; lra | now apply not_negative].
    + intros Hfin Hsign. now apply roundToDollar_away.
    + intros Hfin Hsign. now apply roundToDollar_away.
    + intros Hfin Hsign. now apply roundToDollar_away.
    + intros Hfin Hsign. now apply roundToDollar_away.
  - eexists. split; [vm_compute; reflexivity|].
    split; vm_compute; reflexivity.
  - eexists. split; [vm_compute; reflexivity|].
    split; vm_compute; reflexivity.
Qed.

Lemma figures_are_Math_round_witness :
  Js.F2Q (Js.roundToDollar 2.5) == roundHalfAwayFromZero (Js.F2Q 2.5).
Proof.
  apply figures_are_Math_round; [reflexivity|]. left. vm_compute. discriminate.
Defined.

(** ** More on rounding *)

Lemma Math_round_Z2F_signed z :
  (Z.abs z < 2 ^ 53)%Z → Js.Math_round (Js.Z2F z) = Js.Z2F z.
Proof.
  intros Hz. destruct z as [|p|p]; [reflexivity|apply Math_round_Z2F; lia|].
  unfold Js.Math_round. rewrite Prim2SF_Z2F by lia. cbn [Js.SFZ].
  pose proof (digits2_pos_bound p ltac:(lia)) as Hd.
  unfold Js.canonicalZ. set (d := Z.pos (digits2_pos p)) in *.
  destruct (0 <=? d - 53)%Z eqn:He; [reflexivity|].
  apply Z.leb_gt in He. cbn [cond_Zopp].
  rewrite Z2Pos.id by nia.
  replace (- (d - 53))%Z with (53 - d)%Z by lia.
  replace (1 - (d - 53))%Z with (1 + (53 - d))%Z by lia.
  rewrite Z.pow_add_r, Z.pow_1_r by lia.
  assert (Hp : (0 < 2 ^ (53 - d))%Z) by (apply Z.pow_pos_nonneg; lia).
  assert (E : ((- (Z.pos p * 2 ^ (53 - d)) * 2 + 2 ^ (53 - d))
               / (2 * 2 ^ (53 - d)) = Z.neg p)%Z).
  { symmetry. apply (Z.div_unique _ _ _ (2 ^ (53 - d))); lia. }
  rewrite E. reflexivity.
Qed.

(** The shapes of a rounded figure. *)
Lemma Math_round_cases x :
  Js.Math_round x = x ∨ Js.Math_round x = 0%float ∨
  Js.Math_round x = (-0)%float ∨
  ∃ n, (Z.abs n < 2 ^ 53)%Z ∧ Js.Math_round x = Js.Z2F n.
Proof.
  unfold Js.Math_round.
  destruct (Prim2SF x) as [| | |s m e] eqn:Hx; auto.
  destruct (finite_bounds _ _ _ _ Hx) as [Hm He].
  destruct (0 <=? e)%Z eqn:Hpos; [auto|]. apply Z.leb_gt in Hpos.
  set (n := ((cond_Zopp s (Z.pos m) * 2 + 2 ^ (- e)) / 2 ^ (1 - e))%Z).
  destruct (n =? 0)%Z; [destruct s; auto|].
  do 3 right. exists n. split; [|reflexivity].
  assert (Hp : (0 < 2 ^ (- e))%Z) by (apply Z.pow_pos_nonneg; lia).
  assert (Hq : (2 ^ (1 - e) = 2 * 2 ^ (- e))%Z).
  { replace (1 - e)%Z with (1 + - e)%Z by lia.
    rewrite Z.pow_add_r by lia. lia. }
  assert (H2 : (2 <= 2 ^ (- e))%Z).
  { change 2%Z with (2 ^ 1)%Z at 1. apply Z.pow_le_mono_r; lia. }
  assert (Hlo : (- 2 ^ 52 <= n)%Z).
  { unfold n. apply Z.div_le_lower_bound; [lia|]. rewrite Hq.
    destruct s; simpl; nia. }
  assert (Hhi : (n <= 2 ^ 52)%Z).
  { unfold n. apply Z.lt_succ_r, Z.div_lt_upper_bound; [lia|].
    rewrite Hq. destruct s; simpl; nia. }
  lia.
Qed.

Lemma Js_roundToDollar_idempotent x :
  Js.roundToDollar (Js.roundToDollar x) = Js.roundToDollar x.
Proof.
  unfold Js.roundToDollar.
  destruct (Math_round_cases x) as [E|[E|[E|(n & Hn & E)]]]; rewrite E.
  - exact E.
  - reflexivity.
  - reflexivity.
  - now apply Math_round_Z2F_signed.
Qed.

(** X1: rounding twice is rounding once; on the values of finite doubles
    rounding is monotone and keeps a value that is not negative so. *)
Theorem rounding_is_stable :
  (∀ x, Js.roundToDollar (Js.roundToDollar x) = Js.roundToDollar x) ∧
  (∀ x y, Js.isFinite x = true → Js.isFinite y = true →
          Js.F2Q x <= Js.F2Q y →
          Js.F2Q (Js.roundToDollar x) <= Js.F2Q (Js.roundToDollar y)) ∧
  (∀ x, Js.isFinite x = true → 0 <= Js.F2Q x →
        0 <= Js.F2Q (Js.roundToDollar x)).
Proof.
  split; [exact Js_roundToDollar_idempotent|]. split.
  - intros x y Hx Hy Hle.
    destruct (Math_round_finite x Hx) as [_ Ex].
    destruct (Math_round_finite y Hy) as [_ Ey].
    unfold Js.roundToDollar. rewrite Ex, Ey. now apply roundToDollar_mono.
  - intros x Hx Hpos. destruct (Math_round_finite x Hx) as [_ Ex].
    unfold Js.roundToDollar. rewrite Ex.
    change 0 with (roundToDollar 0) at 1. now apply roundToDollar_mono.
Qed.

Lemma rounding_is_stable_witness :
  Js.F2Q (Js.roundToDollar 1.4) <= Js.F2Q (Js.roundToDollar 2.6).
Proof.
  apply rounding_is_stable; [reflexivity | reflexivity |].
  vm_compute. discriminate.
Defined.

(** ** The lookups *)









(** ** The shipped tables *)

(** X3: the shipped tables hold an entry of their own exactly for the
    pairs accepted by [isSupportedTaxYear] and [isSupportedFilingStatus];
    every shipped schedule starts at 0, is contiguous, has rates in (0, 1],
    whole bounds and one unbounded final band; every shipped deduction is a
    positive whole number. *)
Theorem shipped_tables_well_formed (taxYear : Z) (filingStatus : string) :
  (is_Some (tableEntry STANDARD_DEDUCTIONS taxYear filingStatus)
   ↔ isSupportedTaxYear taxYear && isSupportedFilingStatus filingStatus
     = true) ∧
  (is_Some (tableEntry TAX_BRACKETS taxYear filingStatus)
   ↔ isSupportedTaxYear taxYear && isSupportedFilingStatus filingStatus
     = true) ∧
  (∀ bs, tableEntry TAX_BRACKETS taxYear filingStatus = Some bs →
         validSchedule bs ∧ Forall wholeBounds bs) ∧
  (∀ a, tableEntry STANDARD_DEDUCTIONS taxYear filingStatus = Some a →
        isWhole a ∧ 0 < a).
Proof.
  rewrite supported_pair.
  unfold STANDARD_DEDUCTIONS, TAX_BRACKETS. rewrite !tableEntry_shipped.
  split; [|split; [|split]].
  - repeat case_decide; subst; split; intros Hk;
      try (now apply is_Some_None in Hk); try (eexists; reflexivity);
      intuition congruence.
  - repeat case_decide; subst; split; intros Hk;
      try (now apply is_Some_None in Hk); try (eexists; reflexivity);
      intuition congruence.
  - intros bs. repeat case_decide; try discriminate; intros [= <-];
      (split; [valid_schedule | whole_bounds]).
  - intros a. repeat case_decide; try discriminate; intros [= <-];
      (split; [eexists; reflexivity | reflexivity]).
Qed.

Lemma shipped_tables_well_formed_witness :
  validSchedule single2025 ∧ Forall wholeBounds single2025.
Proof.
  apply (shipped_tables_well_formed 2025 FILING_STATUSES.SINGLE).
  vm_compute. reflexivity.
Defined.

Ltac whole_schedule :=
  repeat
    match goal with
    | |- Js.WholeSchedule ?lo ({| Js.max := Some ?hi |} :: _) =>
        let z := eval vm_compute in (Qfloor (Js.F2Q hi)) in
        apply (Js.WholeSchedule_band lo z);
        [vm_compute; reflexivity | vm_compute; reflexivity | lia |]
    end;
  apply Js.WholeSchedule_top; vm_compute; reflexivity.

Lemma Js_shipped_schedules_whole y s bs :
  tableEntry Js.TAX_BRACKETS y s = Some bs → Js.WholeSchedule 0 bs.
Proof.
  unfold Js.TAX_BRACKETS. rewrite tableEntry_shipped.
  repeat case_decide; try discriminate; intros [= <-]; whole_schedule.
Qed.

(** X20: on the shipped schedules, in binary64, a whole taxable income
    below [2^53] is split exactly: every shipped schedule is contiguous from
    0 with whole bounds and an unbounded last band, [calculateTaxLiability]
    returns, every reported income in band is a whole number, and the
    reported incomes in band add up to the taxable income. *)
Theorem shipped_whole_income_is_split_exactly (taxYear : Z)
    (filingStatus : string) (brackets : list Js.Bracket) (t : Z) :
  tableEntry Js.TAX_BRACKETS taxYear filingStatus = Some brackets →
  (0 <= t < 2 ^ 53)%Z →
  Js.WholeSchedule 0 brackets ∧
  ∃ l : Js.Liability,
    Js.calculateTaxLiability Js.TAX_BRACKETS (Js.Z2F t) taxYear filingStatus
      = Js.Return l ∧
    Forall (fun r => Js.isFinite (Js.incomeInBracket r) = true ∧
                     isWhole (Js.F2Q (Js.incomeInBracket r)))
           (Js.bracketBreakdown l) ∧
    sumQ (Js.F2Q <$> (Js.incomeInBracket <$> Js.bracketBreakdown l))
    == inject_Z t.
Proof.
  intros Hbs Ht.
  pose proof (Js_shipped_schedules_whole _ _ _ Hbs) as Hvalid.
  split; [exact Hvalid|].
  eexists. split.
  { apply Js_calculateTaxLiability_own.
    - exact (Js_getTaxBrackets_entry _ _ _ _ Hbs).
    - change 0%float with (Js.Z2F 0). rewrite leb_Z2F by lia.
      apply Z.leb_le. lia. }
  cbn [Js.bracketBreakdown].
  destruct (whole_incomes_reported brackets t Hvalid Ht) as [Hinc Hsum].
  split; [|exact Hsum].
  destruct (decide (t = 0%Z)) as [->|Hne].
  { change (Js.Z2F 0) with 0%float. rewrite Js_bandIncomes_spent. constructor. }
  destruct (whole_bandIncomes 0 brackets t Hvalid) as (zs & Hzs & Hall & _);
    [lia|lia|].
  rewrite Z.sub_0_r in Hzs.
  apply Forall_fmap, Forall_forall. intros c Hc.
  assert (Hc2 : c.2 ∈ Js.Z2F <$> zs).
  { rewrite <- Hzs. apply list_elem_of_fmap. eauto. }
  apply list_elem_of_fmap in Hc2 as (z & Hz & Hzin).
  rewrite Forall_forall in Hall. specialize (Hall z Hzin).
  cbn [Js.incomeInBracket Js.reported compose]. unfold Js.roundToDollar.
  simpl. rewrite Hz, Math_round_Z2F by lia.
  split; [apply isFinite_Z2F; lia|].
  exists z. apply F2Q_Z2F. lia.
Qed.

Lemma shipped_whole_income_is_split_exactly_witness :
  ∃ l : Js.Liability,
    Js.calculateTaxLiability Js.TAX_BRACKETS (Js.Z2F 243815) 2025
      FILING_STATUSES.SINGLE = Js.Return l ∧
    sumQ (Js.F2Q <$> (Js.incomeInBracket <$> Js.bracketBreakdown l))
    == inject_Z 243815.
Proof.
  destruct (shipped_whole_income_is_split_exactly 2025 FILING_STATUSES.SINGLE
              (default [] (tableEntry Js.TAX_BRACKETS 2025
                             FILING_STATUSES.SINGLE)) 243815)
    as (_ & l & Hl & _ & Hsum); [vm_compute; reflexivity | lia |].
  exists l. split; [exact Hl | exact Hsum].
Defined.
